(** * Relative airmass: [get_relative_airmass] of [solar_energy_forecast/pvlib.py]

    The function takes a zenith angle (a scalar, a NumPy array or a pandas
    Series) and a model name, masks every zenith above 90 degrees with NaN,
    evaluates one of eight empirical formulas element by element and, for a
    Series, puts the index back on the result.

    Numbers.  A float64 element is modelled as an extended real: NaN, the two
    infinities, or a finite real number.  The special values follow IEEE 754
    and C99 Annex F (what NumPy computes); finite arithmetic is exact, so
    rounding, overflow and the sign of zero are not represented, and a Python
    literal such as [0.50572] stands for that decimal.  Statements about
    values are therefore statements about the formulas over the reals.
    Where rounding itself decides the outcome, at a zenith of exactly 90
    degrees, the scalar call is given a second time on binary64 numbers, in
    module [F64]. *)

From Stdlib Require Import Floats.
From Stdlib Require Import Reals Lra Lia List String Ascii Bool ZArith.
Import ListNotations.

(** ** One float64 element *)

Inductive num : Type :=
| NaN
| PInf
| NInf
| Fin (r : R).

Coercion Fin : R >-> num.

Declare Scope num_scope.
Delimit Scope num_scope with num.
Bind Scope num_scope with num.

Module Num.

Local Open Scope R_scope.

Definition opp (x : num) : num :=
  match x with
  | NaN => NaN
  | PInf => NInf
  | NInf => PInf
  | Fin a => Fin (- a)
  end.

Definition add (x y : num) : num :=
  match x, y with
  | NaN, _ | _, NaN => NaN
  | Fin a, Fin b => Fin (a + b)
  | PInf, NInf | NInf, PInf => NaN
  | PInf, _ | _, PInf => PInf
  | NInf, _ | _, NInf => NInf
  end.

Definition sub (x y : num) : num := add x (opp y).

(** An infinity [s] times the finite [b]: the sign of [b] decides, and
    infinity times zero is NaN. *)
Definition scale_inf (s : num) (b : R) : num :=
  if Rlt_dec 0 b then s else if Rlt_dec b 0 then opp s else NaN.

Definition mul (x y : num) : num :=
  match x, y with
  | NaN, _ | _, NaN => NaN
  | Fin a, Fin b => Fin (a * b)
  | Fin a, _ => scale_inf y a
  | _, Fin b => scale_inf x b
  | PInf, PInf | NInf, NInf => PInf
  | PInf, NInf | NInf, PInf => NInf
  end.

(** Division by a finite zero gives an infinity of the sign of the numerator
    (NumPy warns and carries on); [0 / 0] and [inf / inf] are NaN. *)
Definition div (x y : num) : num :=
  match x, y with
  | NaN, _ | _, NaN => NaN
  | Fin a, Fin b =>
      if Req_dec_T b 0
      then (if Rlt_dec 0 a then PInf else if Rlt_dec a 0 then NInf else NaN)
      else Fin (a / b)
  | Fin _, _ => Fin 0
  | _, Fin b => if Rlt_dec b 0 then opp x else x
  | _, _ => NaN
  end.

(** Comparisons are false as soon as one side is NaN. *)
Definition gt (x y : num) : bool :=
  match x, y with
  | NaN, _ | _, NaN => false
  | Fin a, Fin b => if Rlt_dec b a then true else false
  | PInf, PInf | NInf, _ | Fin _, PInf => false
  | PInf, _ | Fin _, NInf => true
  end.


Definition le (x y : num) : bool :=
  match x, y with
  | NaN, _ | _, NaN => false
  | Fin a, Fin b => if Rle_dec a b then true else false
  | NInf, _ | _, PInf => true
  | _, _ => false
  end.

Definition is_int (b : R) : bool :=
  if Req_dec_T (IZR (Int_part b)) b then true else false.

Definition is_odd_int (b : R) : bool := is_int b && Z.odd (Int_part b).

(** A finite base [a] to a finite non-zero exponent [b], as C's [pow]: a
    negative base has a power only for an integer exponent. *)
Definition pow_fin (a b : R) : num :=
  if Rlt_dec 0 a then Fin (Rpower a b)
  else if Req_dec_T a 0 then (if Rlt_dec 0 b then Fin 0 else PInf)
  else if is_int b
       then Fin (if Z.odd (Int_part b) then - Rpower (- a) b else Rpower (- a) b)
       else NaN.

(** [x ** y].  Anything to the power zero is one and one to any power is one,
    even for NaN; otherwise NaN propagates. *)
Definition pow (x y : num) : num :=
  match y with
  | Fin b =>
      if Req_dec_T b 0 then Fin 1
      else match x with
           | NaN => NaN
           | Fin a => pow_fin a b
           | PInf => if Rlt_dec 0 b then PInf else Fin 0
           | NInf => if Rlt_dec 0 b
                     then (if is_odd_int b then NInf else PInf)
                     else Fin 0
           end
  | NaN => match x with
           | Fin a => if Req_dec_T a 1 then Fin 1 else NaN
           | _ => NaN
           end
  | PInf => match x with
            | NaN => NaN
            | Fin a => if Rlt_dec (Rabs a) 1 then Fin 0
                       else if Rlt_dec 1 (Rabs a) then PInf else Fin 1
            | _ => PInf
            end
  | NInf => match x with
            | NaN => NaN
            | Fin a => if Rlt_dec (Rabs a) 1 then PInf
                       else if Rlt_dec 1 (Rabs a) then Fin 0 else Fin 1
            | _ => Fin 0
            end
  end.

Definition cos (x : num) : num :=
  match x with
  | Fin a => Fin (Rtrigo_def.cos a)
  | _ => NaN
  end.

Definition sin (x : num) : num :=
  match x with
  | Fin a => Fin (Rtrigo_def.sin a)
  | _ => NaN
  end.

(** [np.radians] multiplies by pi / 180. *)
Definition radians (x : num) : num := mul x (Fin (PI / 180)).

End Num.

Notation "x + y" := (Num.add x y) : num_scope.
Notation "x - y" := (Num.sub x y) : num_scope.
Notation "x * y" := (Num.mul x y) : num_scope.
Notation "x / y" := (Num.div x y) : num_scope.
Notation "x ** y" := (Num.pow x y) (at level 30, right associativity) : num_scope.

(** ** NumPy arrays: a 0-d value or a 1-d sequence *)

Inductive ndarray (A : Type) : Type :=
| Scalar (x : A)
| Array (xs : list A).

Arguments Scalar {A} x.
Arguments Array {A} xs.

Definition asscalar (x : num) : ndarray num := Scalar x.
Coercion asscalar : num >-> ndarray.

Fixpoint zip_with {A B C : Type} (f : A -> B -> C) (xs : list A) (ys : list B)
  : list C :=
  match xs, ys with
  | x :: xs', y :: ys' => f x y :: zip_with f xs' ys'
  | _, _ => []
  end.

Definition ufunc1 {A B : Type} (f : A -> B) (a : ndarray A) : ndarray B :=
  match a with
  | Scalar x => Scalar (f x)
  | Array xs => Array (map f xs)
  end.

(** A binary ufunc broadcasts a 0-d operand over the other one.  Two 1-d
    operands are combined position by position; in this program they always
    come from the same input and have the same length. *)
Definition ufunc2 {A B C : Type} (f : A -> B -> C)
  (a : ndarray A) (b : ndarray B) : ndarray C :=
  match a, b with
  | Scalar x, Scalar y => Scalar (f x y)
  | Scalar x, Array ys => Array (map (f x) ys)
  | Array xs, Scalar y => Array (map (fun x => f x y) xs)
  | Array xs, Array ys => Array (zip_with f xs ys)
  end.

Definition elements {A : Type} (a : ndarray A) : list A :=
  match a with
  | Scalar x => [x]
  | Array xs => xs
  end.

Declare Scope nd_scope.
Delimit Scope nd_scope with nd.
Bind Scope nd_scope with ndarray.

Notation "x + y" := (ufunc2 Num.add x y) : nd_scope.
Notation "x - y" := (ufunc2 Num.sub x y) : nd_scope.
Notation "x * y" := (ufunc2 Num.mul x y) : nd_scope.
Notation "x / y" := (ufunc2 Num.div x y) : nd_scope.
Notation "x ** y" := (ufunc2 Num.pow x y) (at level 30, right associativity) : nd_scope.
Notation "x > y" := (ufunc2 Num.gt x y) : nd_scope.

Module np.

Definition nan : ndarray num := Scalar NaN.

(** [np.where(cond, x, y)]: [x] where [cond] holds, [y] elsewhere. *)
Definition where_ (cond : ndarray bool) (x y : ndarray num) : ndarray num :=
  ufunc2 (fun (p : bool * num) (b : num) => if fst p then snd p else b)
         (ufunc2 pair cond x) y.

Definition radians : ndarray num -> ndarray num := ufunc1 Num.radians.
Definition cos : ndarray num -> ndarray num := ufunc1 Num.cos.
Definition sin : ndarray num -> ndarray num := ufunc1 Num.sin.

End np.

(** ** pandas Series: values under an index of labels *)

Module pd.

Record Series (L : Type) : Type := mk { index : list L; values : list num }.

Arguments mk {L} index values.
Arguments index {L} s.
Arguments values {L} s.

(** [pd.Series(data, index=idx)]; a 0-d [data] is repeated for every label. *)
Definition make {L : Type} (data : ndarray num) (idx : list L) : Series L :=
  match data with
  | Array ys => mk idx ys
  | Scalar y => mk idx (repeat y (List.length idx))
  end.

End pd.

(** What the function accepts and returns: [numeric]. *)
Inductive numeric (L : Type) : Type :=
| Nd (a : ndarray num)
| Pd (s : pd.Series L).

Arguments Nd {L} a.
Arguments Pd {L} s.

(** The array a NumPy function sees when it is handed the value. *)
Definition asarray {L : Type} (v : numeric L) : ndarray num :=
  match v with
  | Nd a => a
  | Pd s => Array (pd.values s)
  end.

(** ** Exceptions *)

Inductive exn : Type :=
| ValueError (args : list string).

Inductive result (A : Type) : Type :=
| Return (v : A)
| Raise (e : exn).

Arguments Return {A} v.
Arguments Raise {A} e.

Definition bind {A B : Type} (r : result A) (k : A -> result B) : result B :=
  match r with
  | Return v => k v
  | Raise e => Raise e
  end.

Notation "x <- r ;; k" := (bind r (fun x => k))
  (at level 61, r at next level, right associativity).

(** ** [str.lower] on ASCII text *)

Definition lower_char (c : ascii) : ascii :=
  let n := nat_of_ascii c in
  if (65 <=? n)%nat && (n <=? 90)%nat then ascii_of_nat (n + 32) else c.

Fixpoint lower (s : string) : string :=
  match s with
  | EmptyString => EmptyString
  | String c s' => String (lower_char c) (lower s')
  end.

(** ** The function *)

Local Open Scope R_scope.
Local Open Scope string_scope.

Definition get_relative_airmass {L : Type} (zenith : numeric L) (model : string)
  : result (numeric L) :=
  let zenith_ := asarray zenith in
  (* set zenith values greater than 90 to nans *)
  let z := np.where_ (zenith_ > 90)%nd np.nan zenith_ in
  let zenith_rad := np.radians z in
  let model := lower model in
  am <- (if "kastenyoung1989" =? model then
           Return (1.0 / (np.cos zenith_rad +
                   0.50572 * ((6.07995 + (90 - z)) ** (- 1.6364))))%nd
         else if "kasten1966" =? model then
           Return (1.0 / (np.cos zenith_rad + 0.15 * ((93.885 - z) ** (- 1.253))))%nd
         else if "simple" =? model then
           Return (1.0 / np.cos zenith_rad)%nd
         else if "pickering2002" =? model then
           Return (1.0 / (np.sin (np.radians (90 - z +
                   244.0 / (165 + 47.0 * (90 - z) ** 1.1)))))%nd
         else if "youngirvine1967" =? model then
           let sec_zen := (1.0 / np.cos zenith_rad)%nd in
           Return (sec_zen * (1 - 0.0012 * (sec_zen * sec_zen - 1)))%nd
         else if "young1994" =? model then
           Return ((1.002432 * ((np.cos zenith_rad) ** 2) +
                    0.148386 * (np.cos zenith_rad) + 0.0096467) /
                   (np.cos zenith_rad ** 3 +
                    0.149864 * (np.cos zenith_rad ** 2) +
                    0.0102963 * (np.cos zenith_rad) + 0.000303978))%nd
         else if "gueymard1993" =? model then
           Return (1.0 / (np.cos zenith_rad +
                   0.00176759 * z * ((94.37515 - z) ** (- 1.21563))))%nd
         else if "gueymard2003" =? model then
           Return (1.0 / (np.cos zenith_rad +
                   0.48353 * (z ** 0.095846) / (96.741 - z) ** 1.754))%nd
         else
           Raise (ValueError ["%s is not a valid model for relativeairmass"; model])) ;;
  Return (match zenith with
          | Pd s => Pd (pd.make am (pd.index s))
          | Nd _ => Nd am
          end).

(** ** The eight models *)

Inductive Model : Type :=
| simple
| kasten1966
| youngirvine1967
| kastenyoung1989
| gueymard1993
| young1994
| pickering2002
| gueymard2003.

Definition name (m : Model) : string :=
  match m with
  | simple => "simple"
  | kasten1966 => "kasten1966"
  | youngirvine1967 => "youngirvine1967"
  | kastenyoung1989 => "kastenyoung1989"
  | gueymard1993 => "gueymard1993"
  | young1994 => "young1994"
  | pickering2002 => "pickering2002"
  | gueymard2003 => "gueymard2003"
  end.

Definition all_models : list Model :=
  [simple; kasten1966; youngirvine1967; kastenyoung1989;
   gueymard1993; young1994; pickering2002; gueymard2003].

Definition recognized (s : string) : bool :=
  existsb (fun m => name m =? s) all_models.

(** ** The computation on one element

    [mask] is one element of [np.where(zenith > 90, np.nan, zenith)] and
    [formula m z] one element of the branch of model [m] for the masked value
    [z]; [kernel] chains them.  Lemma [get_relative_airmass_kernel] below
    proves that the array computation is [kernel] on every element. *)

Definition mask (zenith : num) : num :=
  if Num.gt zenith 90 then NaN else zenith.

Definition formula (m : Model) (z : num) : num :=
  let zenith_rad := Num.radians z in
  match m with
  | kastenyoung1989 =>
      1.0 / (Num.cos zenith_rad + 0.50572 * ((6.07995 + (90 - z)) ** (- 1.6364)))
  | kasten1966 =>
      1.0 / (Num.cos zenith_rad + 0.15 * ((93.885 - z) ** (- 1.253)))
  | simple =>
      1.0 / Num.cos zenith_rad
  | pickering2002 =>
      1.0 / (Num.sin (Num.radians (90 - z +
             244.0 / (165 + 47.0 * (90 - z) ** 1.1))))
  | youngirvine1967 =>
      let sec_zen := 1.0 / Num.cos zenith_rad in
      sec_zen * (1 - 0.0012 * (sec_zen * sec_zen - 1))
  | young1994 =>
      (1.002432 * ((Num.cos zenith_rad) ** 2) +
       0.148386 * (Num.cos zenith_rad) + 0.0096467) /
      (Num.cos zenith_rad ** 3 +
       0.149864 * (Num.cos zenith_rad ** 2) +
       0.0102963 * (Num.cos zenith_rad) + 0.000303978)
  | gueymard1993 =>
      1.0 / (Num.cos zenith_rad +
             0.00176759 * z * ((94.37515 - z) ** (- 1.21563)))
  | gueymard2003 =>
      1.0 / (Num.cos zenith_rad +
             0.48353 * (z ** 0.095846) / (96.741 - z) ** 1.754)
  end%num.

Definition kernel (m : Model) (zenith : num) : num := formula m (mask zenith).

(** The result for each shape of input, given the per-element function. *)
Definition elementwise {L : Type} (f : num -> num) (zenith : numeric L)
  : numeric L :=
  match zenith with
  | Nd a => Nd (ufunc1 f a)
  | Pd s => Pd (pd.mk (pd.index s) (map f (pd.values s)))
  end.

(** The elements of a value, in order. *)
Definition items {L : Type} (v : numeric L) : list num := elements (asarray v).

(** ** The formula table of the specification

    One row per model, as a function of [z] in degrees and of
    [zenith_rad = radians z]; squares and cubes are powers. *)

Definition spec_formula (m : Model) (z : num) : num :=
  let zenith_rad := Num.radians z in
  let c := Num.cos zenith_rad in
  match m with
  | simple => 1 / c
  | kasten1966 => 1 / (c + 0.15 * (93.885 - z) ** (- 1.253))
  | youngirvine1967 =>
      let sec := 1 / c in sec * (1 - 0.0012 * (sec ** 2 - 1))
  | kastenyoung1989 =>
      1 / (c + 0.50572 * (6.07995 + (90 - z)) ** (- 1.6364))
  | gueymard1993 =>
      1 / (c + 0.00176759 * z * (94.37515 - z) ** (- 1.21563))
  | young1994 =>
      (1.002432 * c ** 2 + 0.148386 * c + 0.0096467) /
      (c ** 3 + 0.149864 * c ** 2 + 0.0102963 * c + 0.000303978)
  | pickering2002 =>
      1 / Num.sin (Num.radians (90 - z + 244 / (165 + 47 * (90 - z) ** 1.1)))
  | gueymard2003 =>
      1 / (c + 0.48353 * z ** 0.095846 / (96.741 - z) ** 1.754)
  end%num.

(** ** The Kasten-Young formula over the reals *)

Definition ky_correction (z : R) : R :=
  0.50572 * Rpower (6.07995 + (90 - z)) (- 1.6364).

Definition ky_denominator (z : R) : R :=
  cos (z * (PI / 180)) + ky_correction z.

Definition ky_airmass (z : R) : R := 1.0 / ky_denominator z.

(** The slope of the denominator: its derivative in [z]. *)
Definition ky_slope (z : R) : R :=
  - (PI / 180) * sin (z * (PI / 180))
  + 0.50572 * 1.6364 * Rpower (6.07995 + (90 - z)) (- 2.6364).

(** ** The scalar call on binary64 numbers

    At the horizon itself the cosine of the angle decides between a finite
    and an infinite result, and that is a matter of rounding, which the
    exact reals above do not see.  [F64.get_relative_airmass] is the scalar
    case of the function on IEEE 754 binary64 values: literals are the
    nearest doubles, and the arithmetic and the comparison are the
    machine's.  [np.radians] multiplies by the double [pi / 180], as NumPy
    does.  The C library's [cos], [sin] and [pow] are not in the source and
    are parameters. *)

Module F64.

Local Open Scope float_scope.
Local Set Warnings "-inexact-float".

Definition pi : float := 0x1.921fb54442d18p+1.

Definition radians (x : float) : float := x * (pi / 180).

Section Libm.

Variables cos sin : float -> float.
Variable pow : float -> float -> float.

Definition get_relative_airmass (zenith : float) (model : string)
  : result float :=
  (* set zenith values greater than 90 to nans *)
  let z := if 90 <? zenith then nan else zenith in
  let zenith_rad := radians z in
  let model := lower model in
  if String.eqb "kastenyoung1989" model then
    Return (1.0 / (cos zenith_rad +
            0.50572 * (pow (6.07995 + (90 - z)) (- 1.6364))))
  else if String.eqb "kasten1966" model then
    Return (1.0 / (cos zenith_rad + 0.15 * (pow (93.885 - z) (- 1.253))))
  else if String.eqb "simple" model then
    Return (1.0 / cos zenith_rad)
  else if String.eqb "pickering2002" model then
    Return (1.0 / (sin (radians (90 - z +
            244.0 / (165 + 47.0 * pow (90 - z) 1.1)))))
  else if String.eqb "youngirvine1967" model then
    let sec_zen := 1.0 / cos zenith_rad in
    Return (sec_zen * (1 - 0.0012 * (sec_zen * sec_zen - 1)))
  else if String.eqb "young1994" model then
    Return ((1.002432 * (pow (cos zenith_rad) 2) +
             0.148386 * (cos zenith_rad) + 0.0096467) /
            (pow (cos zenith_rad) 3 +
             0.149864 * (pow (cos zenith_rad) 2) +
             0.0102963 * (cos zenith_rad) + 0.000303978))
  else if String.eqb "gueymard1993" model then
    Return (1.0 / (cos zenith_rad +
            0.00176759 * z * (pow (94.37515 - z) (- 1.21563))))
  else if String.eqb "gueymard2003" model then
    Return (1.0 / (cos zenith_rad +
            0.48353 * (pow z 0.095846) / pow (96.741 - z) 1.754))
  else
    Raise (ValueError ["%s is not a valid model for relativeairmass"%string;
                       model]).

End Libm.

End F64.

(** ** Young and Irvine's formula as a function of the secant *)

Definition youngirvine_of_secant (s : R) : R :=
  s * (1 + - (0.0012 * (s * s + - 1))).

(** * Properties *)

(** ** Ufuncs act element by element *)

Lemma zip_with_map {A B C D : Type} (f : B -> C -> D) (g : A -> B) (h : A -> C)
  (xs : list A) :
  zip_with f (map g xs) (map h xs) = map (fun x => f (g x) (h x)) xs.
Proof.
  induction xs as [|x xs IH]; simpl; [reflexivity | now rewrite IH].
Qed.

Lemma ufunc1_id {A : Type} (a : ndarray A) : a = ufunc1 (fun x => x) a.
Proof. destruct a; simpl; [reflexivity | now rewrite map_id]. Qed.

Lemma ufunc1_ufunc1 {A B C : Type} (f : B -> C) (g : A -> B) (a : ndarray A) :
  ufunc1 f (ufunc1 g a) = ufunc1 (fun x => f (g x)) a.
Proof. destruct a; simpl; [reflexivity | now rewrite map_map]. Qed.

Lemma ufunc2_scalar_r {A B C D : Type} (f : B -> C -> D) (g : A -> B) (c : C)
  (a : ndarray A) :
  ufunc2 f (ufunc1 g a) (Scalar c) = ufunc1 (fun x => f (g x) c) a.
Proof. destruct a; simpl; [reflexivity | now rewrite map_map]. Qed.

Lemma ufunc2_scalar_l {A B C D : Type} (f : B -> C -> D) (c : B) (g : A -> C)
  (a : ndarray A) :
  ufunc2 f (Scalar c) (ufunc1 g a) = ufunc1 (fun x => f c (g x)) a.
Proof. destruct a; simpl; [reflexivity | now rewrite map_map]. Qed.

Lemma ufunc2_same {A B C D : Type} (f : B -> C -> D) (g : A -> B) (h : A -> C)
  (a : ndarray A) :
  ufunc2 f (ufunc1 g a) (ufunc1 h a) = ufunc1 (fun x => f (g x) (h x)) a.
Proof. destruct a; simpl; [reflexivity | now rewrite zip_with_map]. Qed.

Lemma elements_ufunc1 {A B : Type} (f : A -> B) (a : ndarray A) :
  elements (ufunc1 f a) = map f (elements a).
Proof. destruct a; reflexivity. Qed.

(** [np.where(zenith > 90, np.nan, zenith)] is [mask] on every element. *)
Lemma where_mask (a : ndarray num) :
  np.where_ (a > 90)%nd np.nan a = ufunc1 mask a.
Proof.
  unfold np.where_, np.nan, asscalar.
  destruct a as [x|xs]; simpl; [reflexivity|].
  f_equal. rewrite map_map.
  induction xs as [|x xs IH]; simpl; [reflexivity | now rewrite IH].
Qed.

Ltac elementwise_form :=
  unfold np.radians, np.cos, np.sin, asscalar;
  repeat first
    [ rewrite ufunc1_ufunc1
    | rewrite ufunc2_same
    | rewrite ufunc2_scalar_r
    | rewrite ufunc2_scalar_l ].

(** The branch of every model computes [formula] on every element. *)
Lemma get_relative_airmass_kernel {L : Type} (zenith : numeric L)
  (model : string) (m : Model) :
  lower model = name m ->
  get_relative_airmass zenith model = Return (elementwise (kernel m) zenith).
Proof.
  intros Hm. unfold get_relative_airmass. rewrite Hm, where_mask.
  set (a := asarray zenith).
  assert (Hwrap : forall am, am = ufunc1 (kernel m) a ->
            Return (match zenith with
                    | Pd s => Pd (pd.make am (pd.index s))
                    | Nd _ => Nd am
                    end) = Return (elementwise (kernel m) zenith)).
  { intros am ->. subst a. destruct zenith as [a|[idx vs]]; reflexivity. }
  destruct m; cbn [name String.eqb Ascii.eqb Bool.eqb bind]; apply Hwrap;
    elementwise_form; reflexivity.
Qed.

Lemma items_elementwise {L : Type} (f : num -> num) (zenith : numeric L) :
  items (elementwise f zenith) = map f (items zenith).
Proof.
  destruct zenith as [a|s]; unfold items; simpl;
    [apply elements_ufunc1 | reflexivity].
Qed.

(** ** Dispatch on the model name *)

Lemma recognized_name (m : Model) : recognized (name m) = true.
Proof. destruct m; reflexivity. Qed.

Lemma recognized_inv (s : string) :
  recognized s = true -> exists m, s = name m.
Proof.
  unfold recognized, all_models. cbn [existsb].
  intros H.
  repeat (apply orb_prop in H; destruct H as [H|H]);
    try (apply String.eqb_eq in H; eexists; symmetry; exact H).
  discriminate H.
Qed.

Lemma get_relative_airmass_invalid {L : Type} (zenith : numeric L)
  (model : string) :
  recognized (lower model) = false ->
  get_relative_airmass zenith model =
  Raise (ValueError ["%s is not a valid model for relativeairmass"; lower model]).
Proof.
  unfold recognized, all_models. cbn [existsb name]. intros H.
  repeat (apply orb_false_elim in H; destruct H as [? H]).
  unfold get_relative_airmass.
  repeat match goal with
         | E : (_ =? _) = false |- _ => rewrite E; clear E
         end.
  reflexivity.
Qed.

(** ** NaN goes through every operation of the formulas *)

Lemma add_nan_r (x : num) : (x + NaN)%num = NaN.
Proof. destruct x; reflexivity. Qed.

Lemma add_nan_l (x : num) : (NaN + x)%num = NaN.
Proof. reflexivity. Qed.

Lemma sub_nan_r (x : num) : (x - NaN)%num = NaN.
Proof. destruct x; reflexivity. Qed.

Lemma sub_nan_l (x : num) : (NaN - x)%num = NaN.
Proof. reflexivity. Qed.

Lemma mul_nan_r (x : num) : (x * NaN)%num = NaN.
Proof. destruct x; reflexivity. Qed.

Lemma mul_nan_l (x : num) : (NaN * x)%num = NaN.
Proof. reflexivity. Qed.

Lemma div_nan_r (x : num) : (x / NaN)%num = NaN.
Proof. destruct x; reflexivity. Qed.

Lemma div_nan_l (x : num) : (NaN / x)%num = NaN.
Proof. reflexivity. Qed.

Lemma pow_nan_l (b : R) : b <> 0 -> (NaN ** b)%num = NaN.
Proof.
  intros Hb. unfold Num.pow. destruct (Req_dec_T b 0); [contradiction | reflexivity].
Qed.

Lemma radians_nan : Num.radians NaN = NaN.
Proof. reflexivity. Qed.

Lemma cos_nan : Num.cos NaN = NaN.
Proof. reflexivity. Qed.

Lemma sin_nan : Num.sin NaN = NaN.
Proof. reflexivity. Qed.

Create Rewrite HintDb nan.
#[local] Hint Rewrite add_nan_r add_nan_l sub_nan_r sub_nan_l mul_nan_r mul_nan_l
  div_nan_r div_nan_l radians_nan cos_nan sin_nan : nan.
#[local] Hint Rewrite pow_nan_l using lra : nan.

Lemma formula_nan (m : Model) : formula m NaN = NaN.
Proof.
  destruct m; unfold formula; cbv zeta; autorewrite with nan; reflexivity.
Qed.

Lemma mask_gt (x : num) : Num.gt x 90 = true -> mask x = NaN.
Proof. unfold mask. now intros ->. Qed.

Lemma mask_le (x : num) : Num.le x 90 = true -> mask x = x.
Proof.
  unfold mask. destruct x as [| | |r]; simpl; try reflexivity; try discriminate.
  destruct (Rle_dec r 90), (Rlt_dec 90 r); try reflexivity; try discriminate.
  lra.
Qed.

Lemma kernel_gt (m : Model) (x : num) : Num.gt x 90 = true -> kernel m x = NaN.
Proof. intros H. unfold kernel. rewrite (mask_gt x H). apply formula_nan. Qed.

Lemma kernel_nan (m : Model) : kernel m NaN = NaN.
Proof. unfold kernel. apply formula_nan. Qed.

(** ** Squares: [x ** 2] is [x * x] *)

Lemma Int_part_2 : Int_part 2 = 2%Z.
Proof. symmetry. apply Int_part_spec. simpl. lra. Qed.

Lemma Rpower_2 (a : R) : 0 < a -> Rpower a 2 = a * a.
Proof.
  intros Ha. change 2 with (INR 2). rewrite Rpower_pow by assumption.
  simpl. ring.
Qed.

Lemma pow_2 (x : num) : (x ** 2)%num = (x * x)%num.
Proof.
  unfold Num.pow. destruct (Req_dec_T 2 0) as [E|_]; [lra|].
  destruct x as [| | |a]; simpl.
  - reflexivity.
  - destruct (Rlt_dec 0 2); [reflexivity | lra].
  - unfold Num.is_odd_int, Num.is_int. rewrite Int_part_2. simpl.
    rewrite andb_false_r. destruct (Rlt_dec 0 2); [reflexivity | lra].
  - unfold Num.pow_fin, Num.is_int. rewrite Int_part_2. simpl.
    destruct (Rlt_dec 0 a) as [Ha|Ha].
    + now rewrite Rpower_2.
    + destruct (Req_dec_T a 0) as [->|Hz].
      * destruct (Rlt_dec 0 2); [|lra]. f_equal. ring.
      * destruct (Req_dec_T 2 2) as [_|N]; [|congruence].
        rewrite Rpower_2 by lra. f_equal. ring.
Qed.

Lemma formula_spec (m : Model) (z : num) : formula m z = spec_formula m z.
Proof.
  destruct m; unfold formula, spec_formula; cbv zeta;
    rewrite ?pow_2;
    replace 1.0 with 1 by lra; replace 244.0 with 244 by lra;
    replace 47.0 with 47 by lra; reflexivity.
Qed.

(** ** Every element of the output is the scalar call on that element *)

Lemma scalar_call {L : Type} (model : string) (m : Model) (x : num) :
  lower model = name m ->
  @get_relative_airmass L (Nd (Scalar x)) model = Return (Nd (Scalar (kernel m x))).
Proof. intros Hm. now rewrite (get_relative_airmass_kernel _ _ _ Hm). Qed.

Lemma Forall2_map_r {A B : Type} (P : A -> B -> Prop) (f : A -> B) (xs : list A) :
  (forall x, P x (f x)) -> Forall2 P xs (map f xs).
Proof. intros H. induction xs; simpl; constructor; auto. Qed.

Lemma nth_error_items {L : Type} (f : num -> num) (zenith : numeric L)
  (i : nat) (x : num) :
  nth_error (items zenith) i = Some x ->
  nth_error (items (elementwise f zenith)) i = Some (f x).
Proof.
  intros H. rewrite items_elementwise. now apply map_nth_error.
Qed.

(** ** The Kasten-Young airmass as a real function *)

Lemma ky_correction_pos (z : R) : 0 < ky_correction z.
Proof.
  unfold ky_correction, Rpower. apply Rmult_lt_0_compat; [lra | apply exp_pos].
Qed.

Lemma cos_degrees_nonneg (z : R) : -90 <= z <= 90 -> 0 <= cos (z * (PI / 180)).
Proof.
  intros Hz. pose proof PI_RGT_0 as Hpi.
  apply cos_ge_0; nra.
Qed.

Lemma ky_denominator_pos (z : R) : -90 <= z <= 90 -> 0 < ky_denominator z.
Proof.
  intros Hz. unfold ky_denominator.
  pose proof (cos_degrees_nonneg z Hz). pose proof (ky_correction_pos z). lra.
Qed.

Lemma ky_denominator_num (z : R) :
  z <= 90 ->
  (Num.cos (Num.radians z) + 0.50572 * ((6.07995 + (90 - z)) ** (- 1.6364)))%num
  = Fin (ky_denominator z).
Proof.
  intros Hz. cbn [Num.radians Num.mul Num.cos Num.sub Num.add Num.opp].
  unfold Num.pow. destruct (Req_dec_T (-1.6364) 0) as [E|_]; [exfalso; lra|].
  unfold Num.pow_fin. destruct (Rlt_dec 0 (6.07995 + (90 + - z))) as [_|N]; [|exfalso; lra].
  reflexivity.
Qed.

Lemma div_one_fin (d : R) : d <> 0 -> (1.0 / Fin d)%num = Fin (1.0 / d).
Proof.
  intros Hd. unfold Num.div. destruct (Req_dec_T d 0); [contradiction | reflexivity].
Qed.

Lemma mask_fin (z : R) : z <= 90 -> mask (Fin z) = Fin z.
Proof.
  intros Hz. apply mask_le. simpl.
  destruct (Rle_dec z 90); [reflexivity | contradiction].
Qed.

Lemma kernel_ky (z : R) :
  -90 <= z <= 90 -> kernel kastenyoung1989 (Fin z) = Fin (ky_airmass z).
Proof.
  intros Hz. unfold kernel. rewrite mask_fin by lra.
  unfold formula. cbv zeta. rewrite ky_denominator_num by lra.
  apply div_one_fin. pose proof (ky_denominator_pos z Hz). lra.
Qed.

Lemma ky_airmass_pos (z : R) : -90 <= z <= 90 -> 0 < ky_airmass z.
Proof.
  intros Hz. unfold ky_airmass. pose proof (ky_denominator_pos z Hz).
  apply Rdiv_lt_0_compat; lra.
Qed.

Lemma call_ky {L : Type} (z : R) :
  -90 <= z <= 90 ->
  @get_relative_airmass L (Nd (Scalar (Fin z))) "kastenyoung1989"
  = Return (Nd (Scalar (Fin (ky_airmass z)))).
Proof.
  intros Hz.
  rewrite (scalar_call (L := L) "kastenyoung1989" kastenyoung1989 _ eq_refl).
  now rewrite kernel_ky.
Qed.

(** ** Bounds on real powers *)

Lemma Rpower_le_compat (x y a b : R) :
  1 <= x <= y -> 0 <= a <= b -> Rpower x a <= Rpower y b.
Proof.
  intros [Hx Hxy] [Ha Hab].
  apply Rle_trans with (Rpower y a).
  - apply Rle_Rpower_l; lra.
  - apply Rle_Rpower; lra.
Qed.

Lemma Rpower_neg (x a : R) : Rpower x (- a) = / Rpower x a.
Proof. apply Rpower_Ropp. Qed.

Lemma Rpower_pos (x a : R) : 0 < Rpower x a.
Proof. unfold Rpower. apply exp_pos. Qed.

(** [x ^ (n + 1/2) = x ^ n * sqrt x]. *)
Lemma Rpower_half (n : nat) (x : R) :
  0 < x -> Rpower x (INR n + / 2) = x ^ n * sqrt x.
Proof.
  intros Hx. now rewrite Rpower_plus, Rpower_pow, Rpower_sqrt.
Qed.

Lemma sqrt_64 : sqrt 64 = 8.
Proof. replace 64 with (8 * 8) by lra. apply sqrt_square. lra. Qed.

Lemma ky_power_0 : 512 <= Rpower 96.07995 1.6364 <= 10000.
Proof.
  split.
  - apply Rle_trans with (Rpower 64 (INR 1 + / 2)).
    + rewrite Rpower_half by lra. rewrite sqrt_64. simpl. lra.
    + apply Rpower_le_compat; simpl; lra.
  - apply Rle_trans with (Rpower 100 2).
    + apply Rpower_le_compat; lra.
    + rewrite Rpower_2 by lra. lra.
Qed.

Lemma ky_correction_0 : 0.00005 <= ky_correction 0 <= 0.00099.
Proof.
  unfold ky_correction.
  replace (6.07995 + (90 - 0)) with 96.07995 by lra.
  replace (-1.6364) with (- (1.6364)) by lra.
  rewrite Rpower_neg.
  destruct ky_power_0 as [Hlo Hhi].
  set (p := Rpower 96.07995 1.6364) in *.
  assert (Hp : 0 < p) by lra.
  assert (Hip : 0 < / p) by now apply Rinv_0_lt_compat.
  assert (E : p * / p = 1) by (apply Rinv_r; lra).
  split; nra.
Qed.

Lemma ky_denominator_0 : ky_denominator 0 = 1 + ky_correction 0.
Proof. unfold ky_denominator. now rewrite Rmult_0_l, cos_0. Qed.

Lemma ky_airmass_0 : 0.999 <= ky_airmass 0 <= 0.99996.
Proof.
  unfold ky_airmass. rewrite ky_denominator_0.
  destruct ky_correction_0 as [Hlo Hhi].
  set (t := ky_correction 0) in *.
  assert (Hd : 0 < 1 + t) by lra.
  assert (Hi : 0 < / (1 + t)) by now apply Rinv_0_lt_compat.
  assert (E : (1 + t) * / (1 + t) = 1) by (apply Rinv_r; lra).
  unfold Rdiv. split; nra.
Qed.

(** ** Elementary bounds on cosine, sine and powers *)

Lemma cos_ge_quadratic (x : R) : 0 <= x <= 2 -> 1 - x * x / 2 <= cos x.
Proof.
  intros Hx.
  replace x with (2 * (x / 2)) at 3 by lra. rewrite cos_2a_sin.
  assert (Hs0 : 0 <= sin (x / 2)).
  { apply sin_ge_0; [lra|]. pose proof PI2_1. lra. }
  assert (Hs1 : sin (x / 2) <= x / 2).
  { destruct (Req_dec x 0) as [->|Hn].
    - replace (0 / 2) with 0 by lra. rewrite sin_0. lra.
    - left. apply sin_lt_x. lra. }
  nra.
Qed.

Lemma sin_ge_half (x : R) : 0 <= x <= 1 -> x / 2 <= sin x.
Proof.
  intros [H0 H1].
  destruct (Req_dec x 0) as [->|Hn].
  { rewrite sin_0. lra. }
  destruct (MVT_cor2 sin cos 0 x) as (c & Hc & Hc0); [lra | |].
  { intros; apply derivable_pt_lim_sin. }
  rewrite sin_0 in Hc.
  assert (Hcos : 1 - c * c / 2 <= cos c) by (apply cos_ge_quadratic; lra).
  assert (1 / 2 <= cos c) by nra.
  nra.
Qed.

(** Lowering the base of a negative power raises it at least linearly. *)
Lemma Rpower_neg_step (x y a : R) :
  0 < y <= x -> 0 <= a ->
  Rpower x (- a) * (1 + a * ((x - y) / x)) <= Rpower y (- a).
Proof.
  intros [Hy Hyx] Ha.
  assert (Hx : 0 < x) by lra.
  assert (Hln : ln y - ln x <= y / x - 1).
  { replace (ln y - ln x) with (ln (y / x)).
    - pose proof (exp_ineq1_le (ln (y / x))) as H.
      rewrite exp_ln in H by (apply Rdiv_lt_0_compat; lra). lra.
    - unfold Rdiv. rewrite ln_mult, ln_Rinv; try lra.
      now apply Rinv_0_lt_compat. }
  assert (Hxy : (x - y) / x = 1 - y / x) by (field; lra).
  unfold Rpower.
  replace (- a * ln y) with (- a * ln x + a * (ln x - ln y)) by ring.
  rewrite exp_plus.
  apply Rmult_le_compat_l; [left; apply exp_pos|].
  apply Rle_trans with (1 + a * (ln x - ln y)); [|apply exp_ineq1_le].
  rewrite Hxy. nra.
Qed.

(** ** Kasten-Young is not monotone next to the zenith *)

Lemma ky_correction_step :
  ky_correction 0 + 0.0000000008 <= ky_correction 0.001.
Proof.
  destruct ky_correction_0 as [Hlo _].
  unfold ky_correction in *.
  replace (6.07995 + (90 - 0)) with 96.07995 in * by lra.
  replace (6.07995 + (90 - 0.001)) with 96.07895 by lra.
  replace (-1.6364) with (- (1.6364)) in * by lra.
  pose proof (Rpower_neg_step 96.07995 96.07895 1.6364) as H.
  assert (Hs : 0.0000104 <= (96.07995 - 96.07895) / 96.07995).
  { apply Rmult_le_reg_r with 96.07995; [lra|].
    unfold Rdiv. rewrite Rmult_assoc, Rinv_l by lra. lra. }
  set (p := Rpower 96.07995 (- (1.6364))) in *.
  set (q := Rpower 96.07895 (- (1.6364))) in *.
  set (s := (96.07995 - 96.07895) / 96.07995) in *.
  assert (Hq : p * (1 + 1.6364 * s) <= q) by (apply H; lra).
  nra.
Qed.

Lemma ky_denominator_rises : ky_denominator 0 < ky_denominator 0.001.
Proof.
  rewrite ky_denominator_0. unfold ky_denominator.
  pose proof ky_correction_step as Hstep.
  pose proof PI_RGT_0 as Hpi0. pose proof PI_4 as Hpi4.
  set (x := 0.001 * (PI / 180)).
  assert (Hx : 0 <= x <= 0.00003) by (unfold x; lra).
  assert (Hcos : 1 - x * x / 2 <= cos x) by (apply cos_ge_quadratic; lra).
  nra.
Qed.

Lemma ky_airmass_falls : ky_airmass 0.001 < ky_airmass 0.
Proof.
  unfold ky_airmass.
  pose proof ky_denominator_rises as Hr.
  assert (H0 : 0 < ky_denominator 0) by (apply ky_denominator_pos; lra).
  unfold Rdiv. apply Rmult_lt_compat_l; [lra|].
  apply Rinv_lt_contravar; [|assumption].
  apply Rmult_lt_0_compat; lra.
Qed.

(** ** Over the reals, Kasten-Young is monotone from one degree on *)

Lemma derivable_pt_lim_affine (a b x : R) :
  derivable_pt_lim (fun t => a * t + b) x a.
Proof.
  intros eps Heps. exists (mkposreal 1 Rlt_0_1). intros h Hh _.
  replace ((a * (x + h) + b - (a * x + b)) / h - a) with 0 by (field; assumption).
  now rewrite Rabs_R0.
Qed.

Lemma ky_denominator_slope (z : R) :
  z <= 90 -> derivable_pt_lim ky_denominator z (ky_slope z).
Proof.
  intros Hz.
  set (k := PI / 180).
  set (angle := fun t : R => k * t + 0).
  set (base := fun t : R => -1 * t + 96.07995).
  apply derivable_pt_lim_ext with
    (f := plus_fct (comp cos angle)
            (mult_real_fct 0.50572 (comp (fun x => Rpower x (- 1.6364)) base))).
  - intros t. unfold plus_fct, mult_real_fct, comp, angle, base, ky_denominator,
      ky_correction, k.
    f_equal; [f_equal; ring | f_equal; f_equal; lra].
  - replace (ky_slope z) with
      (- sin (angle z) * k
       + 0.50572 * ((- 1.6364 * Rpower (base z) (- 1.6364 - 1)) * -1)).
    + apply derivable_pt_lim_plus.
      * apply derivable_pt_lim_comp;
          [apply derivable_pt_lim_affine | apply derivable_pt_lim_cos].
      * apply derivable_pt_lim_scal.
        apply derivable_pt_lim_comp; [apply derivable_pt_lim_affine|].
        apply derivable_pt_lim_power. unfold base. lra.
    + unfold ky_slope, angle, base, k.
      replace (-1.6364 - 1) with (-2.6364) by lra.
      replace (-1 * z + 96.07995) with (6.07995 + (90 - z)) by lra.
      replace (PI / 180 * z + 0) with (z * (PI / 180)) by ring.
      generalize (sin (z * (PI / 180))) (Rpower (6.07995 + (90 - z)) (-2.6364)).
      intros s p. nra.
Qed.

Lemma PI_gt_3 : 3 < PI.
Proof. pose proof PI2_3_2. lra. Qed.

Lemma sqrt_36 : sqrt 36 = 6.
Proof. replace 36 with (6 * 6) by lra. apply sqrt_square. lra. Qed.

Lemma sqrt_lower (x s : R) : 0 <= s -> s * s <= x -> s <= sqrt x.
Proof.
  intros Hs Hx. rewrite <- (sqrt_square s Hs). apply sqrt_le_1_alt. exact Hx.
Qed.

(** The power in the slope, on the two halves of the range. *)
Lemma slope_power_low (z : R) :
  z <= 60 -> Rpower (6.07995 + (90 - z)) (- 2.6364) <= / 7776.
Proof.
  intros Hz. replace (-2.6364) with (- (2.6364)) by lra. rewrite Rpower_neg.
  apply Rinv_le_contravar; [lra|].
  apply Rle_trans with (Rpower 36 (INR 2 + / 2)).
  - rewrite Rpower_half by lra. rewrite sqrt_36. simpl. lra.
  - apply Rpower_le_compat; simpl; lra.
Qed.

Lemma slope_power_high (z : R) :
  z <= 90 -> Rpower (6.07995 + (90 - z)) (- 2.6364) <= / 86.4.
Proof.
  intros Hz. replace (-2.6364) with (- (2.6364)) by lra. rewrite Rpower_neg.
  apply Rinv_le_contravar; [lra|].
  apply Rle_trans with (Rpower 6 (INR 2 + / 2)).
  - rewrite Rpower_half by lra.
    assert (2.4 <= sqrt 6) by (apply sqrt_lower; lra).
    simpl. nra.
  - apply Rpower_le_compat; simpl; lra.
Qed.

Lemma sin_degrees_low (z : R) : 1 <= z <= 60 -> / 120 <= sin (z * (PI / 180)).
Proof.
  intros Hz. pose proof PI_gt_3 as Hpi.
  apply Rle_trans with (sin (/ 60)).
  - pose proof (sin_ge_half (/ 60)) as H. lra.
  - apply sin_incr_1; try lra; nra.
Qed.

Lemma sin_degrees_high (z : R) : 60 <= z <= 90 -> 0.85 <= sin (z * (PI / 180)).
Proof.
  intros Hz. pose proof PI_gt_3 as Hpi.
  apply Rle_trans with (sin (PI / 3)).
  - rewrite sin_PI3. assert (1.7 <= sqrt 3) by (apply sqrt_lower; lra). lra.
  - apply sin_incr_1; try lra; nra.
Qed.

Lemma ky_slope_nonpos (z : R) : 1 <= z <= 90 -> ky_slope z <= 0.
Proof.
  intros Hz. unfold ky_slope. pose proof PI_gt_3 as Hpi.
  pose proof (Rpower_pos (6.07995 + (90 - z)) (-2.6364)) as Hp.
  destruct (Rle_dec z 60) as [Hlow|Hhigh].
  - pose proof (slope_power_low z Hlow) as Hpow.
    pose proof (sin_degrees_low z (conj (proj1 Hz) Hlow)) as Hsin.
    set (p := Rpower _ _) in *. set (s := sin _) in *.
    assert (/ 60 * / 120 <= PI / 180 * s) by nra.
    lra.
  - pose proof (slope_power_high z (proj2 Hz)) as Hpow.
    assert (Hz' : 60 <= z <= 90) by lra.
    pose proof (sin_degrees_high z Hz') as Hsin.
    set (p := Rpower _ _) in *. set (s := sin _) in *.
    assert (/ 60 * 0.85 <= PI / 180 * s) by nra.
    lra.
Qed.

Lemma ky_denominator_decreasing (z1 z2 : R) :
  1 <= z1 -> z1 <= z2 -> z2 <= 90 -> ky_denominator z2 <= ky_denominator z1.
Proof.
  intros H1 H12 H2.
  destruct (Req_dec z1 z2) as [->|Hne]; [lra|].
  destruct (MVT_cor2 ky_denominator ky_slope z1 z2) as (c & Hc & Hin); [lra | |].
  { intros c Hc. apply ky_denominator_slope. lra. }
  assert (ky_slope c <= 0) by (apply ky_slope_nonpos; lra).
  nra.
Qed.

Lemma ky_airmass_increasing (z1 z2 : R) :
  1 <= z1 -> z1 <= z2 -> z2 <= 90 -> ky_airmass z1 <= ky_airmass z2.
Proof.
  intros H1 H12 H2. unfold ky_airmass.
  pose proof (ky_denominator_decreasing z1 z2 H1 H12 H2) as Hd.
  assert (0 < ky_denominator z2) by (apply ky_denominator_pos; lra).
  unfold Rdiv. apply Rmult_le_compat_l; [lra|].
  apply Rinv_le_contravar; assumption.
Qed.

(** ** A negative base under a fractional exponent *)






(** ** At the horizon itself every formula still has a value *)

Lemma div_fin_not_nan (a d : R) : a <> 0 -> (Fin a / Fin d)%num <> NaN.
Proof.
  intros Ha. unfold Num.div.
  destruct (Req_dec_T d 0); [|discriminate].
  destruct (Rlt_dec 0 a); [discriminate|].
  destruct (Rlt_dec a 0); [discriminate | exfalso; lra].
Qed.

Lemma pow_pos_base (a b : R) :
  0 < a -> b <> 0 -> (Fin a ** Fin b)%num = Fin (Rpower a b).
Proof.
  intros Ha Hb. unfold Num.pow, Num.pow_fin.
  destruct (Req_dec_T b 0); [contradiction|].
  destruct (Rlt_dec 0 a); [reflexivity | contradiction].
Qed.

Lemma pow_zero_base (a b : R) : a = 0 -> 0 < b -> (Fin a ** Fin b)%num = Fin 0.
Proof.
  intros -> Hb. unfold Num.pow, Num.pow_fin.
  destruct (Req_dec_T b 0); [exfalso; lra|].
  destruct (Rlt_dec 0 0); [exfalso; lra|].
  destruct (Req_dec_T 0 0); [|exfalso; lra].
  destruct (Rlt_dec 0 b); [reflexivity | contradiction].
Qed.

Lemma cos_radians_90 : Num.cos (Num.radians 90) = Fin 0.
Proof.
  simpl. f_equal. replace (90 * (PI / 180)) with (PI / 2) by lra. apply cos_PI2.
Qed.

Ltac fin_arith :=
  cbn [Num.add Num.sub Num.mul Num.opp Num.cos Num.sin Num.radians].

Lemma formula_90_not_nan (m : Model) : formula m 90 <> NaN.
Proof.
  destruct m; unfold formula; cbv zeta; rewrite ?cos_radians_90.
  - (* simple *)
    apply div_fin_not_nan. lra.
  - (* kasten1966 *)
    fin_arith. rewrite pow_pos_base by lra. fin_arith.
    apply div_fin_not_nan. lra.
  - (* youngirvine1967 *)
    unfold Num.div at 1 2 3.
    destruct (Req_dec_T 0 0); [|exfalso; lra].
    destruct (Rlt_dec 0 1.0); [|exfalso; lra].
    fin_arith. unfold Num.scale_inf.
    destruct (Rlt_dec 0 0.0012); [|exfalso; lra].
    simpl. discriminate.
  - (* kastenyoung1989 *)
    fin_arith. rewrite pow_pos_base by lra. fin_arith.
    apply div_fin_not_nan. lra.
  - (* gueymard1993 *)
    fin_arith. rewrite pow_pos_base by lra. fin_arith.
    apply div_fin_not_nan. lra.
  - (* young1994 *)
    rewrite pow_2. rewrite pow_zero_base by lra. fin_arith.
    unfold Num.div.
    match goal with
    | |- context [Req_dec_T ?d 0] => destruct (Req_dec_T d 0); [exfalso; lra|]
    end.
    discriminate.
  - (* pickering2002 *)
    fin_arith. rewrite pow_zero_base by lra. fin_arith.
    unfold Num.div at 2.
    match goal with
    | |- context [Req_dec_T ?d 0] => destruct (Req_dec_T d 0); [exfalso; lra|]
    end.
    fin_arith. apply div_fin_not_nan. lra.
  - (* gueymard2003 *)
    fin_arith. rewrite !pow_pos_base by lra. fin_arith.
    unfold Num.div at 2.
    match goal with
    | |- context [Req_dec_T ?d 0] =>
        destruct (Req_dec_T d 0) as [E|_];
        [pose proof (Rpower_pos (96.741 + - (90)) 1.754); exfalso; lra|]
    end.
    fin_arith. apply div_fin_not_nan. lra.
Qed.

(** ** Letter case of the model name *)

Lemma lower_char_idempotent (c : ascii) : lower_char (lower_char c) = lower_char c.
Proof.
  destruct c as [b0 b1 b2 b3 b4 b5 b6 b7].
  destruct b0, b1, b2, b3, b4, b5, b6, b7; reflexivity.
Qed.

Lemma lower_idempotent (s : string) : lower (lower s) = lower s.
Proof.
  induction s as [|c s IH]; simpl; [reflexivity|].
  now rewrite lower_char_idempotent, IH.
Qed.

(** ** Values on the valid domain, model by model *)

Lemma div_one_pos (d : R) :
  0 < d -> exists v : R, (1.0 / Fin d)%num = Fin v /\ 0 < v /\ v = 1.0 / d.
Proof.
  intros Hd. exists (1.0 / d). split; [apply div_one_fin; lra|].
  split; [apply Rdiv_lt_0_compat; lra | reflexivity].
Qed.

Lemma cos_degrees_pos (z : R) : -90 < z < 90 -> 0 < cos (z * (PI / 180)).
Proof.
  intros Hz. pose proof PI_RGT_0 as Hpi.
  apply cos_gt_0; nra.
Qed.

Lemma formula_simple_fin (z : R) :
  -90 < z < 90 ->
  formula simple (Fin z) = Fin (1.0 / cos (z * (PI / 180))).
Proof.
  intros Hz. unfold formula. cbv zeta. fin_arith.
  apply div_one_fin. pose proof (cos_degrees_pos z Hz). lra.
Qed.

Lemma formula_kasten1966_fin (z : R) :
  -90 <= z <= 90 ->
  formula kasten1966 (Fin z)
  = Fin (1.0 / (cos (z * (PI / 180)) + 0.15 * Rpower (93.885 + - z) (- 1.253)))
  /\ 0 < 0.15 * Rpower (93.885 + - z) (- 1.253).
Proof.
  intros Hz. unfold formula. cbv zeta. fin_arith.
  rewrite pow_pos_base by lra. fin_arith.
  pose proof (Rpower_pos (93.885 + - z) (-1.253)) as Hp.
  pose proof (cos_degrees_nonneg z Hz) as Hc.
  split; [apply div_one_fin; lra | lra].
Qed.

Lemma pow_nonneg_base (a b : R) :
  0 <= a -> 0 < b ->
  exists p : R, (Fin a ** Fin b)%num = Fin p /\ 0 <= p /\ (0 < a -> 0 < p).
Proof.
  intros Ha Hb. destruct (Req_dec a 0) as [->|Hn].
  - exists 0. rewrite pow_zero_base by lra. repeat split; lra.
  - exists (Rpower a b). rewrite pow_pos_base by lra.
    pose proof (Rpower_pos a b). repeat split; lra.
Qed.

Lemma cos_degrees_one_or_pos (z t : R) :
  0 <= z <= 90 -> 0 <= t -> (0 < z -> 0 < t) -> 0 < cos (z * (PI / 180)) + t.
Proof.
  intros Hz Ht Hpos.
  assert (Hc : 0 <= cos (z * (PI / 180))) by (apply cos_degrees_nonneg; lra).
  destruct (Req_dec z 0) as [->|Hn].
  - rewrite Rmult_0_l, cos_0. lra.
  - assert (0 < t) by (apply Hpos; lra). lra.
Qed.

Lemma formula_gueymard1993_pos (z : R) :
  0 <= z <= 90 ->
  exists v : R, formula gueymard1993 (Fin z) = Fin v /\ 0 < v.
Proof.
  intros Hz. unfold formula. cbv zeta. fin_arith.
  rewrite pow_pos_base by lra. fin_arith.
  pose proof (Rpower_pos (94.37515 + - z) (-1.21563)) as Hp.
  set (p := Rpower _ _) in *.
  assert (Hd : 0 < cos (z * (PI / 180)) + 0.00176759 * z * p).
  { apply cos_degrees_one_or_pos; [assumption | nra | intros; nra]. }
  destruct (div_one_pos _ Hd) as (v & Hv & Hpos & _). now exists v.
Qed.

Lemma formula_gueymard2003_pos (z : R) :
  0 <= z <= 90 ->
  exists v : R, formula gueymard2003 (Fin z) = Fin v /\ 0 < v.
Proof.
  intros Hz. unfold formula. cbv zeta. fin_arith.
  destruct (pow_nonneg_base z 0.095846) as (p & -> & Hp0 & Hp); [lra | lra |].
  rewrite pow_pos_base by lra. fin_arith.
  pose proof (Rpower_pos (96.741 + - z) 1.754) as Hq.
  set (q := Rpower _ _) in *.
  unfold Num.div at 2. destruct (Req_dec_T q 0); [exfalso; lra|].
  fin_arith.
  assert (Hiq : 0 < / q) by now apply Rinv_0_lt_compat.
  assert (Hd : 0 < cos (z * (PI / 180)) + 0.48353 * p / q).
  { apply cos_degrees_one_or_pos; [assumption | unfold Rdiv; nra |].
    intros Hz0. specialize (Hp Hz0). unfold Rdiv.
    apply Rmult_lt_0_compat; [nra | assumption]. }
  destruct (div_one_pos _ Hd) as (v & Hv & Hpos & _). now exists v.
Qed.

Lemma formula_young1994_pos (z : R) :
  -90 <= z <= 90 ->
  exists v : R, formula young1994 (Fin z) = Fin v /\ 0 < v.
Proof.
  intros Hz. unfold formula. cbv zeta. fin_arith.
  pose proof (cos_degrees_nonneg z Hz) as Hc.
  set (c := cos (z * (PI / 180))) in *.
  rewrite pow_2.
  destruct (pow_nonneg_base c 3) as (p & -> & Hp & _); [lra | lra |].
  fin_arith.
  set (n := 1.002432 * (c * c) + 0.148386 * c + 0.0096467).
  set (d := p + 0.149864 * (c * c) + 0.0102963 * c + 0.000303978).
  assert (Hn : 0 < n) by (unfold n; nra).
  assert (Hd : 0 < d) by (unfold d; nra).
  unfold Num.div. destruct (Req_dec_T d 0); [exfalso; lra|].
  exists (n / d). split; [reflexivity | now apply Rdiv_lt_0_compat].
Qed.

Lemma formula_pickering2002_pos (z : R) :
  0 <= z <= 90 ->
  exists v : R, formula pickering2002 (Fin z) = Fin v /\ 0 < v.
Proof.
  intros Hz. unfold formula. cbv zeta. fin_arith.
  destruct (pow_nonneg_base (90 + - z) 1.1) as (q & -> & Hq & _); [lra | lra |].
  fin_arith.
  unfold Num.div at 2. destruct (Req_dec_T (165 + 47.0 * q) 0); [exfalso; lra|].
  fin_arith.
  set (r := 244.0 / (165 + 47.0 * q)).
  assert (Hr : 0 < r <= 1.5).
  { unfold r. split.
    - apply Rdiv_lt_0_compat; lra.
    - apply Rmult_le_reg_r with (165 + 47.0 * q); [lra|].
      unfold Rdiv. rewrite Rmult_assoc, Rinv_l by lra. lra. }
  pose proof PI_RGT_0 as Hpi.
  assert (Hs : 0 < sin ((90 + - z + r) * (PI / 180))).
  { apply sin_gt_0; nra. }
  destruct (div_one_pos _ Hs) as (v & Hv & Hpos & _). now exists v.
Qed.

Lemma formula_bounded_pos (m : Model) (z : R) :
  m <> simple -> m <> youngirvine1967 -> 0 <= z <= 90 ->
  exists v : R, formula m (Fin z) = Fin v /\ 0 < v.
Proof.
  intros Hs Hy Hz. assert (Hz' : -90 <= z <= 90) by lra.
  destruct m; try contradiction.
  - destruct (formula_kasten1966_fin z Hz') as [E Hp]. rewrite E.
    eexists; split; [reflexivity|].
    pose proof (cos_degrees_nonneg z Hz'). apply Rdiv_lt_0_compat; lra.
  - pose proof (kernel_ky z Hz') as E. unfold kernel in E.
    rewrite mask_fin in E by lra. rewrite E.
    exists (ky_airmass z). split; [reflexivity | now apply ky_airmass_pos].
  - now apply formula_gueymard1993_pos.
  - now apply formula_young1994_pos.
  - now apply formula_pickering2002_pos.
  - now apply formula_gueymard2003_pos.
Qed.

Lemma cos_degrees_le_1 (z : R) : cos (z * (PI / 180)) <= 1.
Proof. apply COS_bound. Qed.

Lemma inv_lt_of_more (c t : R) : 0 < c -> 0 < t -> 1.0 / (c + t) < 1.0 / c.
Proof.
  intros Hc Ht. unfold Rdiv. apply Rmult_lt_compat_l; [lra|].
  apply Rinv_lt_contravar; [apply Rmult_lt_0_compat; lra | lra].
Qed.

(** ** Young and Irvine's formula changes sign before the horizon *)

Lemma formula_youngirvine1967_fin (z : R) :
  -90 < z < 90 ->
  formula youngirvine1967 (Fin z)
  = Fin (youngirvine_of_secant (1.0 / cos (z * (PI / 180)))).
Proof.
  intros Hz. unfold formula. cbv zeta. fin_arith.
  rewrite div_one_fin by (pose proof (cos_degrees_pos z Hz); lra).
  reflexivity.
Qed.

Lemma cos_degrees_low_80 (z : R) : 0 <= z <= 80 -> / 12 <= cos (z * (PI / 180)).
Proof.
  intros Hz. pose proof PI_gt_3 as Hpi. pose proof PI_4 as Hpi4.
  apply Rle_trans with (cos (80 * (PI / 180))).
  - replace (80 * (PI / 180)) with (PI / 2 - 10 * (PI / 180)) by lra.
    rewrite cos_shift.
    pose proof (sin_ge_half (10 * (PI / 180))) as H. lra.
  - apply cos_decr_1; try lra; nra.
Qed.

Lemma cos_degrees_high_89 (z : R) :
  89 <= z < 90 -> 0 < cos (z * (PI / 180)) < / 45.
Proof.
  intros Hz. pose proof PI_gt_3 as Hpi. pose proof PI_4 as Hpi4.
  split; [apply cos_degrees_pos; lra|].
  apply Rle_lt_trans with (cos (89 * (PI / 180))).
  - apply cos_decr_1; try lra; nra.
  - replace (89 * (PI / 180)) with (PI / 2 - PI / 180) by lra.
    rewrite cos_shift.
    apply Rlt_le_trans with (PI / 180); [apply sin_lt_x; lra | lra].
Qed.

(** ** The range of the Kasten-Young airmass *)

Lemma Rpower_root_of_pow (c : R) (b : nat) :
  0 < c -> (0 < b)%nat -> Rpower (c ^ b) (/ INR b) = c.
Proof.
  intros Hc Hb.
  rewrite <- Rpower_pow by assumption. rewrite Rpower_mult.
  rewrite Rinv_r by (apply not_0_INR; lia).
  now apply Rpower_1.
Qed.

Lemma Rpower_rational (x : R) (a b : nat) :
  0 < x -> Rpower x (INR a / INR b) = Rpower (x ^ a) (/ INR b).
Proof.
  intros Hx. rewrite <- Rpower_pow by assumption. now rewrite Rpower_mult.
Qed.

Lemma Rpower_rational_lower (x c : R) (a b : nat) :
  0 < x -> 0 < c -> (0 < b)%nat -> c ^ b <= x ^ a ->
  c <= Rpower x (INR a / INR b).
Proof.
  intros Hx Hc Hb Hle.
  rewrite Rpower_rational by assumption.
  rewrite <- (Rpower_root_of_pow c b Hc Hb) at 1.
  apply Rle_Rpower_l.
  - left. apply Rinv_0_lt_compat. apply lt_0_INR. assumption.
  - split; [now apply pow_lt | assumption].
Qed.

Lemma Rpower_rational_upper (x c : R) (a b : nat) :
  0 < x -> 0 < c -> (0 < b)%nat -> x ^ a <= c ^ b ->
  Rpower x (INR a / INR b) <= c.
Proof.
  intros Hx Hc Hb Hle.
  rewrite Rpower_rational by assumption.
  rewrite <- (Rpower_root_of_pow c b Hc Hb) at 1.
  apply Rle_Rpower_l.
  - left. apply Rinv_0_lt_compat. apply lt_0_INR. assumption.
  - split; [now apply pow_lt | assumption].
Qed.

Lemma ky_power_90 : 19.17 <= Rpower 6.07995 1.6364 <= 19.41.
Proof.
  split.
  - apply Rle_trans with (Rpower 6.07995 (INR 18 / INR 11)).
    + apply Rpower_rational_lower; [lra | lra | lia | lra].
    + apply Rle_Rpower; [lra|]. simpl. lra.
  - apply Rle_trans with (Rpower 6.07995 (INR 23 / INR 14)).
    + apply Rle_Rpower; [lra|]. simpl. lra.
    + apply Rpower_rational_upper; [lra | lra | lia | lra].
Qed.

Lemma ky_airmass_90 : 37.9 <= ky_airmass 90 <= 38.4.
Proof.
  unfold ky_airmass, ky_denominator, ky_correction.
  replace (90 * (PI / 180)) with (PI / 2) by lra. rewrite cos_PI2.
  replace (6.07995 + (90 - 90)) with 6.07995 by lra.
  replace (-1.6364) with (- (1.6364)) by lra. rewrite Rpower_neg.
  destruct ky_power_90 as [Hlo Hhi].
  set (p := Rpower 6.07995 1.6364) in *.
  assert (E : 1.0 / (0 + 0.50572 * / p) = p / 0.50572).
  { replace 1.0 with 1 by lra. replace 0.50572 with (50572 / 100000) by lra.
    field. lra. }
  rewrite E.
  split; lra.
Qed.

Lemma ky_airmass_first_degree (z : R) :
  0 <= z <= 1 -> 0.999 <= ky_airmass z <= 1.001.
Proof.
  intros Hz. unfold ky_airmass, ky_denominator.
  pose proof PI_RGT_0 as Hpi0. pose proof PI_4 as Hpi4.
  assert (Hcos : 0.9997 <= cos (z * (PI / 180)) <= 1).
  { split; [|apply COS_bound].
    set (x := z * (PI / 180)).
    assert (Hx : 0 <= x <= 0.0223) by (unfold x; split; nra).
    pose proof (cos_ge_quadratic x) as H. nra. }
  assert (Hcorr : 0 < ky_correction z <= 0.00099).
  { split; [apply ky_correction_pos|]. unfold ky_correction.
    replace (-1.6364) with (- (1.6364)) by lra. rewrite Rpower_neg.
    assert (Hp : 512 <= Rpower (6.07995 + (90 - z)) 1.6364).
    { apply Rle_trans with (Rpower 64 (INR 1 + / 2)).
      - rewrite Rpower_half by lra. rewrite sqrt_64. simpl. lra.
      - apply Rpower_le_compat; simpl; lra. }
    set (p := Rpower _ _) in *.
    assert (Hip : 0 < / p) by (apply Rinv_0_lt_compat; lra).
    assert (E : p * / p = 1) by (apply Rinv_r; lra).
    nra. }
  set (d := cos (z * (PI / 180)) + ky_correction z).
  assert (Hd : 0.9997 <= d <= 1.00099) by (unfold d; lra).
  assert (Hid : 0 < / d) by (apply Rinv_0_lt_compat; lra).
  assert (E : d * / d = 1) by (apply Rinv_r; lra).
  unfold Rdiv. split; nra.
Qed.

Lemma ky_airmass_range (z : R) :
  0 <= z <= 90 -> 0.999 <= ky_airmass z <= ky_airmass 90.
Proof.
  intros Hz. destruct ky_airmass_90 as [H90 _].
  destruct (Rle_dec z 1) as [Hlow|Hhigh].
  - pose proof (ky_airmass_first_degree z (conj (proj1 Hz) Hlow)). lra.
  - assert (H1 : 0 <= 1 <= 1) by lra.
    pose proof (ky_airmass_first_degree 1 H1) as Hone.
    pose proof (ky_airmass_increasing 1 z) as Hup.
    pose proof (ky_airmass_increasing z 90) as Htop.
    split; [|apply Htop; lra].
    apply Rle_trans with (ky_airmass 1); [lra | apply Hup; lra].
Qed.

(** ** No NaN inside the valid domain *)

Lemma formula_not_nan (m : Model) (z : R) :
  0 <= z <= 90 -> formula m (Fin z) <> NaN.
Proof.
  intros Hz.
  destruct (Req_dec z 90) as [->|Hn]; [apply formula_90_not_nan|].
  assert (Hin : -90 < z < 90) by lra.
  assert (Hb : forall m', m' <> simple -> m' <> youngirvine1967 ->
                 formula m' (Fin z) <> NaN).
  { intros m' Hs Hy. destruct (formula_bounded_pos m' z Hs Hy Hz) as (v & -> & _).
    discriminate. }
  destruct m; try (apply Hb; discriminate).
  - rewrite formula_simple_fin by assumption. discriminate.
  - rewrite formula_youngirvine1967_fin by assumption. discriminate.
Qed.

(** ** Models that only see the cosine are even in the zenith *)

Lemma formula_even (m : Model) (z : R) :
  m = simple \/ m = youngirvine1967 \/ m = young1994 ->
  formula m (Fin (- z)) = formula m (Fin z).
Proof.
  intros Hm. unfold formula. cbv zeta. fin_arith.
  replace (- z * (PI / 180)) with (- (z * (PI / 180))) by ring.
  rewrite cos_neg.
  destruct Hm as [ -> | [ -> | -> ] ]; reflexivity.
Qed.

(** ** Kasten-Young is monotone up to a small dip in the first degree *)

Lemma sin_ge_near_0 (x : R) : 0 <= x <= 0.03 -> 0.999 * x <= sin x.
Proof.
  intros [H0 H1].
  destruct (Req_dec x 0) as [->|Hn].
  { rewrite sin_0. lra. }
  destruct (MVT_cor2 sin cos 0 x) as (c & Hc & Hc0); [lra | |].
  { intros; apply derivable_pt_lim_sin. }
  rewrite sin_0 in Hc.
  assert (Hcos : 1 - c * c / 2 <= cos c) by (apply cos_ge_quadratic; lra).
  assert (0.999 <= cos c) by nra.
  nra.
Qed.

Lemma slope_power_first_degree (z : R) :
  0 <= z <= 1 ->
  0.50572 * 1.6364 * Rpower (6.07995 + (90 - z)) (- 2.6364) <= 0.0000054.
Proof.
  intros Hz. replace (-2.6364) with (- (2.6364)) by lra. rewrite Rpower_neg.
  assert (Hp : 155000 <= Rpower (6.07995 + (90 - z)) 2.6364).
  { apply Rle_trans with (Rpower 95 (INR 21 / INR 8)).
    - apply Rpower_rational_lower; [lra | lra | lia | lra].
    - apply Rpower_le_compat; simpl; lra. }
  set (p := Rpower _ _) in *.
  assert (Hip : 0 < / p) by (apply Rinv_0_lt_compat; lra).
  assert (E : p * / p = 1) by (apply Rinv_r; lra).
  nra.
Qed.

Lemma ky_slope_first_degree (z : R) :
  0 <= z <= 1 -> ky_slope z <= 0.0000054 - 0.0002775 * z.
Proof.
  intros Hz. unfold ky_slope.
  pose proof PI_gt_3 as Hpi. pose proof PI_4 as Hpi4.
  pose proof (slope_power_first_degree z Hz) as Hpow.
  assert (Hsin : 0.999 * (z * (PI / 180)) <= sin (z * (PI / 180))).
  { apply sin_ge_near_0. split; nra. }
  set (k := PI / 180) in *.
  set (s := sin _) in *. set (p := Rpower _ _) in *.
  assert (Hk : / 60 <= k) by (unfold k; lra).
  assert (Hkk : / 3600 <= k * k) by nra.
  assert (Hks : k * (0.999 * (z * k)) <= k * s)
    by (apply Rmult_le_compat_l; lra).
  assert (Hz0 : 0 <= z * (k * k - / 3600))
    by (apply Rmult_le_pos; lra).
  assert (0.0002775 * z <= k * s) by nra.
  lra.
Qed.

Lemma derivable_pt_lim_quadratic (a b x : R) :
  derivable_pt_lim (fun t => a * (t * t) + b * t) x (2 * a * x + b).
Proof.
  intros eps Heps.
  assert (Hpos : 0 < eps / (Rabs a + 1)).
  { apply Rdiv_lt_0_compat; [assumption|]. pose proof (Rabs_pos a). lra. }
  exists (mkposreal _ Hpos). intros h Hh Hlt. simpl in Hlt.
  replace ((a * ((x + h) * (x + h)) + b * (x + h) - (a * (x * x) + b * x)) / h
           - (2 * a * x + b)) with (a * h) by (field; assumption).
  rewrite Rabs_mult.
  pose proof (Rabs_pos a) as Ha. pose proof (Rabs_pos h) as Hh0.
  apply Rle_lt_trans with ((Rabs a + 1) * Rabs h); [nra|].
  apply Rmult_lt_reg_r with (/ (Rabs a + 1)).
  - apply Rinv_0_lt_compat. lra.
  - replace ((Rabs a + 1) * Rabs h * / (Rabs a + 1)) with (Rabs h)
      by (field; lra).
    exact Hlt.
Qed.

Lemma ky_denominator_dip (z1 z2 : R) :
  0 <= z1 -> z1 <= z2 -> z2 <= 1 ->
  ky_denominator z2 - ky_denominator z1 <= 0.000000053.
Proof.
  intros H1 H12 H2.
  destruct (Req_dec z1 z2) as [->|Hne]; [lra|].
  set (q := fun t : R => 0.00013875 * (t * t) + - 0.0000054 * t).
  set (h := fun t : R => ky_denominator t + q t).
  set (h' := fun t : R => ky_slope t + (2 * 0.00013875 * t + - 0.0000054)).
  destruct (MVT_cor2 h h' z1 z2) as (c & Hc & Hin); [lra | |].
  { intros c Hc. unfold h, h'.
    apply (derivable_pt_lim_plus ky_denominator q).
    - apply ky_denominator_slope. lra.
    - apply derivable_pt_lim_quadratic. }
  assert (Hs : h' c <= 0).
  { unfold h'. pose proof (ky_slope_first_degree c). lra. }
  unfold h, q in Hc.
  assert (Hd : ky_denominator z2 - ky_denominator z1
               <= 0.0000054 * (z2 - z1) - 0.00013875 * (z2 * z2 - z1 * z1)) by nra.
  set (s := z2 - z1) in *.
  assert (Hs0 : 0 <= s) by (unfold s; lra).
  assert (Hsq : s * s <= z2 * z2 - z1 * z1) by (unfold s; nra).
  assert (Hquad : 0.0000054 * s - 0.00013875 * (s * s) <= 0.000000053).
  { pose proof (Rle_0_sqr (s - 0.01946)) as Hsqr. unfold Rsqr in Hsqr. nra. }
  nra.
Qed.

Lemma ky_airmass_dip (z1 z2 : R) :
  0 <= z1 -> z1 <= z2 -> z2 <= 1 ->
  ky_airmass z1 <= ky_airmass z2 + 0.00000006.
Proof.
  intros H1 H12 H2.
  pose proof (ky_denominator_dip z1 z2 H1 H12 H2) as Hdip.
  assert (Hz1 : 0 <= z1 <= 1) by lra. assert (Hz2 : 0 <= z2 <= 1) by lra.
  pose proof (ky_airmass_first_degree z1 Hz1) as Ha1.
  pose proof (ky_airmass_first_degree z2 Hz2) as Ha2.
  assert (Hd1 : 0 < ky_denominator z1) by (apply ky_denominator_pos; lra).
  assert (Hd2 : 0 < ky_denominator z2) by (apply ky_denominator_pos; lra).
  unfold ky_airmass in *.
  set (d1 := ky_denominator z1) in *. set (d2 := ky_denominator z2) in *.
  assert (E1 : d1 * / d1 = 1) by (apply Rinv_r; lra).
  assert (E2 : d2 * / d2 = 1) by (apply Rinv_r; lra).
  unfold Rdiv in *.
  set (a1 := 1.0 * / d1) in *. set (a2 := 1.0 * / d2) in *.
  assert (P1 : a1 * d1 = 1) by (unfold a1; lra).
  assert (P2 : a2 * d2 = 1) by (unfold a2; lra).
  assert (Hdiff : a1 - a2 = (d2 - d1) * (a1 * a2)).
  { replace (a1 - a2) with (a1 * (a2 * d2) - a2 * (a1 * d1))
      by (rewrite P1, P2; lra).
    ring. }
  assert (Hprod : 0 < a1 * a2 <= 1.01) by (split; nra).
  destruct (Rle_dec d2 d1) as [Hle|Hgt].
  - assert ((d2 - d1) * (a1 * a2) <= 0) by nra. lra.
  - assert ((d2 - d1) * (a1 * a2) <= 0.000000053 * 1.01) by nra. lra.
Qed.

Lemma ky_airmass_nearly_increasing (z1 z2 : R) :
  0 <= z1 -> z1 <= z2 -> z2 <= 90 ->
  ky_airmass z1 <= ky_airmass z2 + 0.0000001.
Proof.
  intros H1 H12 H2.
  destruct (Rle_dec z2 1) as [Hlow|Hhigh].
  - pose proof (ky_airmass_dip z1 z2 H1 H12 Hlow). lra.
  - destruct (Rle_dec 1 z1) as [Hup|Hdown].
    + pose proof (ky_airmass_increasing z1 z2 Hup H12 H2). lra.
    + assert (Hz1 : z1 <= 1) by lra.
      pose proof (ky_airmass_dip z1 1 H1 Hz1 (Rle_refl 1)) as Hd.
      assert (H11 : 1 <= 1) by lra. assert (H1z : 1 <= z2) by lra.
      pose proof (ky_airmass_increasing 1 z2 H11 H1z H2). lra.
Qed.

(** * The claims *)

(** C1.  For a zenith [z <= 90] (so not NaN) and each of the eight model
    names, in any letter case, the call returns exactly the value of the
    specification's formula table for that model at [z]; for
    [kastenyoung1989] that is
    [1 / (cos (radians z) + 0.50572 * (6.07995 + (90 - z)) ^ (-1.6364))]. *)
Theorem get_relative_airmass_formula_table {L : Type} (m : Model)
  (model : string) (z : num) :
  lower model = name m ->
  Num.le z 90 = true ->
  @get_relative_airmass L (Nd (Scalar z)) model
    = Return (Nd (Scalar (spec_formula m z)))
  /\ @get_relative_airmass L (Nd (Scalar z)) "kastenyoung1989"
    = Return (Nd (Scalar
        (1 / (Num.cos (Num.radians z)
              + 0.50572 * (6.07995 + (90 - z)) ** (- 1.6364)))%num)).
Proof.
  intros Hm Hz. split.
  - rewrite (scalar_call _ _ _ Hm). unfold kernel.
    now rewrite (mask_le _ Hz), formula_spec.
  - rewrite (scalar_call (L := L) "kastenyoung1989" kastenyoung1989 z eq_refl).
    unfold kernel. now rewrite (mask_le _ Hz), formula_spec.
Qed.

Lemma le_60_90 : Num.le 60 90 = true.
Proof. simpl. destruct (Rle_dec 60 90) as [_|N]; [reflexivity | exfalso; lra]. Defined.

Lemma get_relative_airmass_formula_table_witness :
  lower "KastenYoung1989" = name kastenyoung1989 /\
  Num.le 60 90 = true /\
  @get_relative_airmass nat (Nd (Scalar (Fin 60))) "KastenYoung1989"
    = Return (Nd (Scalar (spec_formula kastenyoung1989 60))).
Proof.
  split; [reflexivity|]. split; [exact le_60_90|].
  exact (proj1 (@get_relative_airmass_formula_table nat kastenyoung1989
                  "KastenYoung1989" 60 eq_refl le_60_90)).
Defined.

(** C2.  For each of the eight models, every output element whose input
    zenith is strictly greater than 90 is NaN; an element equal to 90 is not
    masked: its output is the model's formula evaluated at 90, which is not
    NaN. *)
Theorem horizon_masking {L : Type} (zenith : numeric L) (model : string)
  (m : Model) :
  lower model = name m ->
  exists out : numeric L,
    get_relative_airmass zenith model = Return out /\
    (forall i x, nth_error (items zenith) i = Some x ->
                 Num.gt x 90 = true ->
                 nth_error (items out) i = Some NaN) /\
    (forall i, nth_error (items zenith) i = Some (Fin 90) ->
               nth_error (items out) i = Some (formula m 90)) /\
    mask 90 = 90 /\
    formula m 90 <> NaN.
Proof.
  intros Hm. exists (elementwise (kernel m) zenith).
  assert (H90 : mask 90 = 90) by (apply mask_fin; lra).
  split; [now apply get_relative_airmass_kernel|]. repeat split.
  - intros i x Hi Hx. rewrite (nth_error_items _ _ _ _ Hi). now rewrite kernel_gt.
  - intros i Hi. rewrite (nth_error_items _ _ _ _ Hi). unfold kernel.
    now rewrite H90.
  - exact H90.
  - apply formula_90_not_nan.
Qed.

Lemma horizon_masking_witness :
  lower "simple" = name simple /\
  exists out : numeric string,
    get_relative_airmass
      (Pd (pd.mk ["t0"; "t1"; "t2"] [Fin 95; Fin 90; Fin 90.0001])) "simple"
      = Return out /\
    (forall i x, nth_error [Fin 95; Fin 90; Fin 90.0001] i = Some x ->
                 Num.gt x 90 = true ->
                 nth_error (items out) i = Some NaN) /\
    (forall i, nth_error [Fin 95; Fin 90; Fin 90.0001] i = Some (Fin 90) ->
               nth_error (items out) i = Some (formula simple 90)) /\
    mask 90 = 90 /\
    formula simple 90 <> NaN.
Proof.
  split; [reflexivity|].
  exact (@horizon_masking string
           (Pd (pd.mk ["t0"; "t1"; "t2"] [Fin 95; Fin 90; Fin 90.0001]))
           "simple" simple eq_refl).
Defined.

(** C3.  A model string that, lower-cased, is none of the eight names makes
    the call raise a [ValueError] that carries the lower-cased string next to
    its message template, and no value is returned; a recognised string never
    raises.  Nothing else fails. *)
Theorem invalid_model_is_the_only_error {L : Type} (zenith : numeric L)
  (model : string) :
  if recognized (lower model)
  then exists out, get_relative_airmass zenith model = Return out
  else get_relative_airmass zenith model
       = Raise (ValueError ["%s is not a valid model for relativeairmass";
                            lower model]).
Proof.
  destruct (recognized (lower model)) eqn:E.
  - destruct (recognized_inv _ E) as [m Hm].
    eexists. now apply get_relative_airmass_kernel with (m := m).
  - now apply get_relative_airmass_invalid.
Qed.

(** C4.  For each of the eight models the formula of an element that is NaN
    after masking is NaN, so a NaN zenith element (like one above 90) gives a
    NaN output element: the call returns, and returns NaN there. *)
Theorem nan_propagates {L : Type} (zenith : numeric L) (model : string)
  (m : Model) :
  lower model = name m ->
  (forall x, mask x = NaN -> formula m (mask x) = NaN) /\
  exists out : numeric L,
    get_relative_airmass zenith model = Return out /\
    forall i, nth_error (items zenith) i = Some NaN ->
              nth_error (items out) i = Some NaN.
Proof.
  intros Hm. split.
  - intros x ->. apply formula_nan.
  - exists (elementwise (kernel m) zenith).
    split; [now apply get_relative_airmass_kernel|].
    intros i Hi. rewrite (nth_error_items _ _ _ _ Hi). now rewrite kernel_nan.
Qed.

Lemma nan_propagates_witness :
  lower "Gueymard2003" = name gueymard2003 /\
  (forall x, mask x = NaN -> formula gueymard2003 (mask x) = NaN) /\
  exists out : numeric nat,
    get_relative_airmass (Nd (Array [Fin 10; NaN])) "Gueymard2003" = Return out /\
    forall i, nth_error [Fin 10; NaN] i = Some NaN ->
              nth_error (items out) i = Some NaN.
Proof.
  split; [reflexivity|].
  exact (@nan_propagates nat (Nd (Array [Fin 10; NaN])) "Gueymard2003"
           gueymard2003 eq_refl).
Defined.

(** C5, as stated, fails: at zenith 0 the Kasten-Young airmass is not within
    [1e-6] of 1. *)
Lemma kastenyoung1989_at_0_not_within_1e6 :
  ~ (exists a : R,
        @get_relative_airmass nat (Nd (Scalar (Fin 0))) "kastenyoung1989"
          = Return (Nd (Scalar (Fin a)))
        /\ Rabs (a - 1) <= 1e-6).
Proof.
  intros (a & Hcall & Hclose).
  rewrite call_ky in Hcall by lra. injection Hcall as <-.
  destruct ky_airmass_0 as [_ Hhi].
  rewrite Rabs_left in Hclose by lra. lra.
Qed.

(** C5, amended.  For [kastenyoung1989] and the scalar zenith 0 the airmass
    returned is a finite number below 1 that differs from 1.0 by at most
    [1e-3] (and by more than [1e-6]). *)
Theorem kastenyoung1989_at_0_within_1e3 {L : Type} :
  exists a : R,
    @get_relative_airmass L (Nd (Scalar (Fin 0))) "kastenyoung1989"
      = Return (Nd (Scalar (Fin a)))
    /\ a < 1
    /\ Rabs (a - 1) <= 1e-3
    /\ 1e-6 < Rabs (a - 1).
Proof.
  exists (ky_airmass 0). destruct ky_airmass_0 as [Hlo Hhi].
  split; [apply call_ky; lra|].
  rewrite Rabs_left by lra. repeat split; lra.
Qed.

(** C6.  On binary64 numbers the call for [simple] at zenith 90 returns a
    finite number, not an infinity and not NaN: [np.radians 90] is the double
    nearest to pi / 2, not pi / 2, the C library's cosine of it is
    6.123233995736766e-17, not 0, and 1.0 divided by that is
    1.633123935319537e16. *)
Theorem simple_at_90_is_finite (cos sin : float -> float)
  (pow : float -> float -> float) :
  cos 0x1.921fb54442d18p+0%float = 0x1.1a62633145c07p-54%float ->
  F64.radians 90 = 0x1.921fb54442d18p+0%float /\
  F64.get_relative_airmass cos sin pow 90 "simple"
    = Return 0x1.d02967c31cdb5p+53%float /\
  PrimFloat.is_finite 0x1.d02967c31cdb5p+53 = true /\
  PrimFloat.is_infinity 0x1.d02967c31cdb5p+53 = false /\
  PrimFloat.is_nan 0x1.d02967c31cdb5p+53 = false.
Proof.
  intros Hcos. split; [reflexivity|]. split; [|repeat split; reflexivity].
  assert (E : F64.get_relative_airmass cos sin pow 90 "simple"
              = Return (1 / cos 0x1.921fb54442d18p+0)%float) by reflexivity.
  rewrite E, Hcos. reflexivity.
Qed.

Lemma simple_at_90_is_finite_witness :
  (fun _ : float => 0x1.1a62633145c07p-54%float) 0x1.921fb54442d18p+0%float
    = 0x1.1a62633145c07p-54%float /\
  F64.get_relative_airmass (fun _ => 0x1.1a62633145c07p-54%float)
    (fun x => x) (fun x _ => x) 90 "simple"
    = Return 0x1.d02967c31cdb5p+53%float.
Proof.
  split; [reflexivity|].
  exact (proj1 (proj2 (simple_at_90_is_finite
    (fun _ => 0x1.1a62633145c07p-54%float) (fun x => x) (fun x _ => x)
    eq_refl))).
Defined.


(** C7, as stated, fails: between zenith 0 and zenith 0.001 the airmass
    decreases. *)
Lemma kastenyoung1989_not_monotone_from_0 :
  ~ (forall z1 z2 : R,
        0 <= z1 -> z1 <= z2 -> z2 <= 90 ->
        exists a1 a2 : num,
          @get_relative_airmass nat (Nd (Scalar (Fin z1))) "kastenyoung1989"
            = Return (Nd (Scalar a1)) /\
          @get_relative_airmass nat (Nd (Scalar (Fin z2))) "kastenyoung1989"
            = Return (Nd (Scalar a2)) /\
          Num.le a1 a2 = true).
Proof.
  intros H.
  destruct (H 0 0.001) as (a1 & a2 & H1 & H2 & Hle); try lra.
  rewrite call_ky in H1 by lra. rewrite call_ky in H2 by lra.
  injection H1 as <-. injection H2 as <-.
  pose proof ky_airmass_falls as Hf.
  simpl in Hle.
  destruct (Rle_dec (ky_airmass 0) (ky_airmass 0.001)); [lra | discriminate].
Qed.

(** C7, amended.  For [kastenyoung1989] the airmass is non-decreasing in the
    zenith up to a dip of at most [1e-7]: for [0 <= z1 <= z2 <= 90] both calls
    return finite numbers and the first is at most the second plus [1e-7]. *)
Theorem kastenyoung1989_monotone_up_to_1e7 {L : Type} (z1 z2 : R) :
  0 <= z1 -> z1 <= z2 -> z2 <= 90 ->
  exists a1 a2 : R,
    @get_relative_airmass L (Nd (Scalar (Fin z1))) "kastenyoung1989"
      = Return (Nd (Scalar (Fin a1))) /\
    @get_relative_airmass L (Nd (Scalar (Fin z2))) "kastenyoung1989"
      = Return (Nd (Scalar (Fin a2))) /\
    a1 <= a2 + 1e-7 /\
    Num.le a1 (a2 + 1e-7)%num = true.
Proof.
  intros H1 H12 H2.
  exists (ky_airmass z1), (ky_airmass z2).
  pose proof (ky_airmass_nearly_increasing z1 z2 H1 H12 H2) as Hle.
  assert (Hle' : ky_airmass z1 <= ky_airmass z2 + 1e-7) by lra.
  repeat split.
  - apply call_ky; lra.
  - apply call_ky; lra.
  - exact Hle'.
  - simpl. destruct (Rle_dec (ky_airmass z1) (ky_airmass z2 + 1e-7));
      [reflexivity | contradiction].
Qed.

Lemma kastenyoung1989_monotone_up_to_1e7_witness :
  0 <= 0 /\ 0 <= 0.001 /\ 0.001 <= 90 /\
  exists a1 a2 : R,
    @get_relative_airmass nat (Nd (Scalar (Fin 0))) "kastenyoung1989"
      = Return (Nd (Scalar (Fin a1))) /\
    @get_relative_airmass nat (Nd (Scalar (Fin 0.001))) "kastenyoung1989"
      = Return (Nd (Scalar (Fin a2))) /\
    a1 <= a2 + 1e-7 /\
    Num.le a1 (a2 + 1e-7)%num = true.
Proof.
  assert (H1 : 0 <= 0) by lra.
  assert (H12 : 0 <= 0.001) by lra.
  assert (H2 : 0.001 <= 90) by lra.
  repeat (split; [assumption|]).
  exact (@kastenyoung1989_monotone_up_to_1e7 nat 0 0.001 H1 H12 H2).
Defined.

(** C8.  The output has the shape of the input.  A scalar gives a scalar; an
    array gives an array of the same length whose elements are, in order, the
    airmass of the input elements; a Series gives a Series with the same index,
    in the same order, over such values. *)
Theorem output_mirrors_input {L : Type} (model : string) (m : Model) :
  lower model = name m ->
  let airmass_of (x y : num) :=
    @get_relative_airmass L (Nd (Scalar x)) model = Return (Nd (Scalar y)) in
  (forall x, exists y, airmass_of x y) /\
  (forall xs, exists ys,
      @get_relative_airmass L (Nd (Array xs)) model = Return (Nd (Array ys)) /\
      List.length ys = List.length xs /\
      Forall2 airmass_of xs ys) /\
  (forall s : pd.Series L, exists ys,
      get_relative_airmass (Pd s) model = Return (Pd (pd.mk (pd.index s) ys)) /\
      List.length ys = List.length (pd.values s) /\
      Forall2 airmass_of (pd.values s) ys).
Proof.
  intros Hm airmass_of.
  assert (Hone : forall x, airmass_of x (kernel m x)).
  { intros x. now apply scalar_call. }
  repeat split.
  - intros x. exists (kernel m x). apply Hone.
  - intros xs. exists (map (kernel m) xs). repeat split.
    + now rewrite (get_relative_airmass_kernel _ _ _ Hm).
    + apply length_map.
    + now apply Forall2_map_r.
  - intros s. exists (map (kernel m) (pd.values s)). repeat split.
    + now rewrite (get_relative_airmass_kernel _ _ _ Hm).
    + apply length_map.
    + now apply Forall2_map_r.
Qed.

Lemma output_mirrors_input_witness :
  lower "kasten1966" = name kasten1966 /\
  exists ys,
    get_relative_airmass (Pd (pd.mk ["t0"; "t1"; "t2"] [Fin 10; Fin 20; Fin 30]))
      "kasten1966"
    = Return (Pd (pd.mk ["t0"; "t1"; "t2"] ys)) /\
    List.length ys = 3%nat.
Proof.
  split; [reflexivity|].
  destruct (@output_mirrors_input string "kasten1966" kasten1966 eq_refl)
    as (_ & _ & Hseries).
  destruct (Hseries (pd.mk ["t0"; "t1"; "t2"] [Fin 10; Fin 20; Fin 30]))
    as (ys & Hret & Hlen & _).
  exists ys. split; [exact Hret | exact Hlen].
Defined.

(** C9.  On [0 <= z <= 90] the base of the power is at least 6.07995, the
    cosine is non-negative and the correction term strictly positive, so the
    Kasten-Young denominator is strictly positive; the division is by a
    non-zero number and the airmass returned is finite and positive, also at
    [z = 90]. *)
Theorem kastenyoung1989_denominator_positive {L : Type} (z : R) :
  0 <= z <= 90 ->
  6.07995 <= 6.07995 + (90 - z) /\
  0 <= cos (z * (PI / 180)) /\
  0 < ky_correction z /\
  (Num.cos (Num.radians z) + 0.50572 * ((6.07995 + (90 - z)) ** (- 1.6364)))%num
    = Fin (ky_denominator z) /\
  0 < ky_denominator z /\
  @get_relative_airmass L (Nd (Scalar (Fin z))) "kastenyoung1989"
    = Return (Nd (Scalar (Fin (ky_airmass z)))) /\
  0 < ky_airmass z.
Proof.
  intros Hz. assert (Hz' : -90 <= z <= 90) by lra.
  repeat split.
  - lra.
  - now apply cos_degrees_nonneg.
  - apply ky_correction_pos.
  - apply ky_denominator_num; lra.
  - now apply ky_denominator_pos.
  - now apply call_ky.
  - now apply ky_airmass_pos.
Qed.

Lemma kastenyoung1989_denominator_positive_witness :
  0 <= 90 <= 90 /\
  0 < ky_denominator 90 /\
  @get_relative_airmass nat (Nd (Scalar (Fin 90))) "kastenyoung1989"
    = Return (Nd (Scalar (Fin (ky_airmass 90)))) /\
  0 < ky_airmass 90.
Proof.
  assert (H : 0 <= 90 <= 90) by lra.
  split; [exact H|].
  destruct (@kastenyoung1989_denominator_positive nat 90 H)
    as (_ & _ & _ & _ & Hd & Hcall & Ha).
  repeat split; assumption.
Defined.




(** * Further properties of the function *)

(** X1.  The model name is case-insensitive: lower-casing the name before the
    call changes nothing, neither the value returned nor the error raised. *)
Theorem model_name_case_insensitive {L : Type} (zenith : numeric L)
  (model : string) :
  get_relative_airmass zenith (lower model) = get_relative_airmass zenith model.
Proof.
  unfold get_relative_airmass. now rewrite lower_idempotent.
Qed.

(** X2.  Elements do not influence one another: for a recognised model the
    result on the concatenation of two arrays is the concatenation of the
    results on each. *)
Theorem concatenation_of_arrays {L : Type} (model : string) (xs ys : list num) :
  recognized (lower model) = true ->
  exists out1 out2 : list num,
    @get_relative_airmass L (Nd (Array xs)) model = Return (Nd (Array out1)) /\
    @get_relative_airmass L (Nd (Array ys)) model = Return (Nd (Array out2)) /\
    @get_relative_airmass L (Nd (Array (xs ++ ys))) model
      = Return (Nd (Array (out1 ++ out2))).
Proof.
  intros Hr. destruct (recognized_inv _ Hr) as [m Hm].
  exists (map (kernel m) xs), (map (kernel m) ys).
  rewrite !(get_relative_airmass_kernel _ _ _ Hm). simpl.
  now rewrite map_app.
Qed.

Lemma concatenation_of_arrays_witness :
  recognized (lower "Young1994") = true /\
  exists out1 out2 : list num,
    @get_relative_airmass nat (Nd (Array [Fin 10; Fin 95])) "Young1994"
      = Return (Nd (Array out1)) /\
    @get_relative_airmass nat (Nd (Array [NaN])) "Young1994"
      = Return (Nd (Array out2)) /\
    @get_relative_airmass nat (Nd (Array ([Fin 10; Fin 95] ++ [NaN]))) "Young1994"
      = Return (Nd (Array (out1 ++ out2))).
Proof.
  split; [reflexivity|].
  exact (@concatenation_of_arrays nat "Young1994" [Fin 10; Fin 95] [NaN] eq_refl).
Defined.

(** X3.  Six of the eight models stay finite over the whole valid domain:
    for every model other than [simple] and [youngirvine1967] and every
    zenith from 0 to 90 degrees, the horizon included, the call returns a
    finite, strictly positive airmass. *)
Theorem bounded_models_finite_positive {L : Type} (model : string) (m : Model)
  (z : R) :
  lower model = name m ->
  m <> simple -> m <> youngirvine1967 ->
  0 <= z <= 90 ->
  exists v : R,
    @get_relative_airmass L (Nd (Scalar (Fin z))) model
      = Return (Nd (Scalar (Fin v)))
    /\ 0 < v.
Proof.
  intros Hm Hs Hy Hz.
  destruct (formula_bounded_pos m z Hs Hy Hz) as (v & Hv & Hpos).
  exists v. split; [|assumption].
  rewrite (scalar_call _ _ _ Hm). unfold kernel.
  rewrite mask_fin by lra. now rewrite Hv.
Qed.

Lemma bounded_models_finite_positive_witness :
  lower "Pickering2002" = name pickering2002 /\
  0 <= 90 <= 90 /\
  exists v : R,
    @get_relative_airmass nat (Nd (Scalar (Fin 90))) "Pickering2002"
      = Return (Nd (Scalar (Fin v)))
    /\ 0 < v.
Proof.
  assert (Hz : 0 <= 90 <= 90) by lra.
  split; [reflexivity|]. split; [exact Hz|].
  refine (@bounded_models_finite_positive nat "Pickering2002" pickering2002 90
            eq_refl _ _ Hz); discriminate.
Defined.

(** X4.  Strictly inside the horizon the secant model returns a finite
    airmass of at least 1, and both Kasten models return a positive airmass
    strictly below the secant: their correction term only lowers it. *)
Theorem kasten_models_below_secant {L : Type} (z : R) :
  -90 < z < 90 ->
  exists s k66 k89 : R,
    @get_relative_airmass L (Nd (Scalar (Fin z))) "simple"
      = Return (Nd (Scalar (Fin s))) /\
    @get_relative_airmass L (Nd (Scalar (Fin z))) "kasten1966"
      = Return (Nd (Scalar (Fin k66))) /\
    @get_relative_airmass L (Nd (Scalar (Fin z))) "kastenyoung1989"
      = Return (Nd (Scalar (Fin k89))) /\
    1 <= s /\ 0 < k66 < s /\ 0 < k89 < s.
Proof.
  intros Hz. assert (Hz' : -90 <= z <= 90) by lra.
  pose proof (cos_degrees_pos z Hz) as Hc.
  pose proof (cos_degrees_le_1 z) as Hc1.
  destruct (formula_kasten1966_fin z Hz') as [E66 Ht66].
  pose proof (ky_correction_pos z) as Ht89.
  exists (1.0 / cos (z * (PI / 180))),
         (1.0 / (cos (z * (PI / 180)) + 0.15 * Rpower (93.885 + - z) (- 1.253))),
         (ky_airmass z).
  repeat split.
  - rewrite (scalar_call (L := L) "simple" simple _ eq_refl). unfold kernel.
    rewrite mask_fin by lra. now rewrite formula_simple_fin.
  - rewrite (scalar_call (L := L) "kasten1966" kasten1966 _ eq_refl).
    unfold kernel. rewrite mask_fin by lra. now rewrite E66.
  - apply call_ky. lra.
  - apply Rmult_le_reg_r with (cos (z * (PI / 180))); [assumption|].
    unfold Rdiv. rewrite Rmult_assoc, Rinv_l by lra. lra.
  - apply Rdiv_lt_0_compat; lra.
  - now apply inv_lt_of_more.
  - apply ky_airmass_pos. lra.
  - unfold ky_airmass, ky_denominator. now apply inv_lt_of_more.
Qed.

Lemma kasten_models_below_secant_witness :
  -90 < 60 < 90 /\
  exists s k66 k89 : R,
    @get_relative_airmass nat (Nd (Scalar (Fin 60))) "simple"
      = Return (Nd (Scalar (Fin s))) /\
    @get_relative_airmass nat (Nd (Scalar (Fin 60))) "kasten1966"
      = Return (Nd (Scalar (Fin k66))) /\
    @get_relative_airmass nat (Nd (Scalar (Fin 60))) "kastenyoung1989"
      = Return (Nd (Scalar (Fin k89))) /\
    1 <= s /\ 0 < k66 < s /\ 0 < k89 < s.
Proof.
  assert (Hz : -90 < 60 < 90) by lra.
  split; [exact Hz|].
  exact (@kasten_models_below_secant nat 60 Hz).
Defined.

(** X5.  Up to 80 degrees [youngirvine1967] returns a positive airmass that
    does not exceed the secant of the zenith. *)
Theorem youngirvine1967_positive_to_80 {L : Type} (z : R) :
  0 <= z <= 80 ->
  exists v : R,
    @get_relative_airmass L (Nd (Scalar (Fin z))) "youngirvine1967"
      = Return (Nd (Scalar (Fin v)))
    /\ 0 < v <= 1.0 / cos (z * (PI / 180)).
Proof.
  intros Hz.
  exists (youngirvine_of_secant (1.0 / cos (z * (PI / 180)))). split.
  - rewrite (scalar_call (L := L) "youngirvine1967" youngirvine1967 _ eq_refl).
    unfold kernel. rewrite mask_fin by lra.
    rewrite formula_youngirvine1967_fin by lra. reflexivity.
  - pose proof (cos_degrees_low_80 z Hz) as Hlo.
    pose proof (cos_degrees_le_1 z) as Hhi.
    set (c := cos (z * (PI / 180))) in *.
    assert (Hc : 0 < c) by lra.
    assert (Hi : 0 < / c) by now apply Rinv_0_lt_compat.
    assert (E : c * / c = 1) by (apply Rinv_r; lra).
    unfold youngirvine_of_secant, Rdiv.
    set (s := 1.0 * / c).
    assert (Hs : 1 <= s <= 12) by (unfold s; split; nra).
    split; nra.
Qed.

Lemma youngirvine1967_positive_to_80_witness :
  0 <= 45 <= 80 /\
  exists v : R,
    @get_relative_airmass nat (Nd (Scalar (Fin 45))) "youngirvine1967"
      = Return (Nd (Scalar (Fin v)))
    /\ 0 < v <= 1.0 / cos (45 * (PI / 180)).
Proof.
  assert (Hz : 0 <= 45 <= 80) by lra.
  split; [exact Hz|].
  exact (@youngirvine1967_positive_to_80 nat 45 Hz).
Defined.

(** X6.  Within the last degree before the horizon [youngirvine1967]
    returns a finite but strictly negative airmass. *)
Theorem youngirvine1967_negative_near_horizon {L : Type} (z : R) :
  89 <= z < 90 ->
  exists v : R,
    @get_relative_airmass L (Nd (Scalar (Fin z))) "youngirvine1967"
      = Return (Nd (Scalar (Fin v)))
    /\ v < 0.
Proof.
  intros Hz.
  exists (youngirvine_of_secant (1.0 / cos (z * (PI / 180)))). split.
  - rewrite (scalar_call (L := L) "youngirvine1967" youngirvine1967 _ eq_refl).
    unfold kernel. rewrite mask_fin by lra.
    rewrite formula_youngirvine1967_fin by lra. reflexivity.
  - destruct (cos_degrees_high_89 z Hz) as [Hc Hhi].
    set (c := cos (z * (PI / 180))) in *.
    assert (Hi : 0 < / c) by now apply Rinv_0_lt_compat.
    assert (E : c * / c = 1) by (apply Rinv_r; lra).
    unfold youngirvine_of_secant, Rdiv.
    set (s := 1.0 * / c).
    assert (Hs : 45 < s) by (unfold s; nra).
    assert (Hss : 45 * 45 < s * s) by nra.
    nra.
Qed.

Lemma youngirvine1967_negative_near_horizon_witness :
  89 <= 89.5 < 90 /\
  exists v : R,
    @get_relative_airmass nat (Nd (Scalar (Fin 89.5))) "youngirvine1967"
      = Return (Nd (Scalar (Fin v)))
    /\ v < 0.
Proof.
  assert (Hz : 89 <= 89.5 < 90) by lra.
  split; [exact Hz|].
  exact (@youngirvine1967_negative_near_horizon nat 89.5 Hz).
Defined.

(** X7.  Over the whole valid domain the Kasten-Young airmass is bounded:
    for every zenith from 0 to 90 it lies between 0.999 and the value at the
    horizon, and that value is between 37.9 and 38.4. *)
Theorem kastenyoung1989_range {L : Type} (z : R) :
  0 <= z <= 90 ->
  exists v h : R,
    @get_relative_airmass L (Nd (Scalar (Fin z))) "kastenyoung1989"
      = Return (Nd (Scalar (Fin v))) /\
    @get_relative_airmass L (Nd (Scalar (Fin 90))) "kastenyoung1989"
      = Return (Nd (Scalar (Fin h))) /\
    0.999 <= v <= h /\ 37.9 <= h <= 38.4.
Proof.
  intros Hz. exists (ky_airmass z), (ky_airmass 90).
  repeat split; try (apply call_ky; lra);
    try (apply (ky_airmass_range z Hz)); apply ky_airmass_90.
Qed.

Lemma kastenyoung1989_range_witness :
  0 <= 60 <= 90 /\
  exists v h : R,
    @get_relative_airmass nat (Nd (Scalar (Fin 60))) "kastenyoung1989"
      = Return (Nd (Scalar (Fin v))) /\
    @get_relative_airmass nat (Nd (Scalar (Fin 90))) "kastenyoung1989"
      = Return (Nd (Scalar (Fin h))) /\
    0.999 <= v <= h /\ 37.9 <= h <= 38.4.
Proof.
  assert (Hz : 0 <= 60 <= 90) by lra.
  split; [exact Hz|].
  exact (@kastenyoung1989_range nat 60 Hz).
Defined.

Lemma in_range_0_45_90 (x : num) :
  In x [Fin 0; Fin 45; Fin 90] -> exists r : R, x = Fin r /\ 0 <= r <= 90.
Proof.
  intros H.
  repeat (destruct H as [ <- | H ]; [eexists; split; [reflexivity | lra]|]).
  destruct H.
Defined.

(** X8.  NaN never comes out of in-range input: if every element of the
    zenith is a finite number from 0 to 90 then, for each of the eight
    models, the call returns and no element of the output is NaN. *)
Theorem no_nan_inside_valid_domain {L : Type} (zenith : numeric L)
  (model : string) (m : Model) :
  lower model = name m ->
  (forall x, In x (items zenith) -> exists r : R, x = Fin r /\ 0 <= r <= 90) ->
  exists out : numeric L,
    get_relative_airmass zenith model = Return out /\
    ~ In NaN (items out).
Proof.
  intros Hm Hin. exists (elementwise (kernel m) zenith).
  split; [now apply get_relative_airmass_kernel|].
  rewrite items_elementwise. intros Hnan.
  apply in_map_iff in Hnan. destruct Hnan as (x & Hx & Hxin).
  destruct (Hin x Hxin) as (r & -> & Hr).
  unfold kernel in Hx. rewrite mask_fin in Hx by lra.
  exact (formula_not_nan m r Hr Hx).
Qed.

Lemma no_nan_inside_valid_domain_witness :
  lower "simple" = name simple /\
  exists out : numeric nat,
    get_relative_airmass (Nd (Array [Fin 0; Fin 45; Fin 90])) "simple"
      = Return out /\
    ~ In NaN (items out).
Proof.
  split; [reflexivity|].
  exact (@no_nan_inside_valid_domain nat (Nd (Array [Fin 0; Fin 45; Fin 90]))
           "simple" simple eq_refl in_range_0_45_90).
Defined.

(** X9.  [simple], [youngirvine1967] and [young1994] depend on the zenith
    only through its cosine: for a zenith between -90 and 90 the call on
    [-z] returns what the call on [z] returns. *)
Theorem cosine_models_even {L : Type} (model : string) (m : Model) (z : R) :
  lower model = name m ->
  m = simple \/ m = youngirvine1967 \/ m = young1994 ->
  -90 <= z <= 90 ->
  @get_relative_airmass L (Nd (Scalar (Fin (- z)))) model
  = @get_relative_airmass L (Nd (Scalar (Fin z))) model.
Proof.
  intros Hm Hcos Hz.
  rewrite !(scalar_call _ _ _ Hm). unfold kernel.
  rewrite !mask_fin by lra. now rewrite formula_even.
Qed.

Lemma cosine_models_even_witness :
  lower "young1994" = name young1994 /\
  -90 <= 30 <= 90 /\
  @get_relative_airmass nat (Nd (Scalar (Fin (- 30)))) "young1994"
  = @get_relative_airmass nat (Nd (Scalar (Fin 30))) "young1994".
Proof.
  assert (Hz : -90 <= 30 <= 90) by lra.
  split; [reflexivity|]. split; [exact Hz|].
  exact (@cosine_models_even nat "young1994" young1994 30 eq_refl
           (or_intror (or_intror eq_refl)) Hz).
Defined.
